(** * Route composition of the service compiler

    A shallow embedding of [lib/compiler/classes/compiler.class.ts]
    (class [ServiceCompiler]) and of the metadata store it reads, with the
    properties of the module walk, of the path joining and of the route
    registration stated over it. *)

From Stdlib Require Import String Ascii List Bool Arith Lia.
From stdpp Require Import base option list gmap strings.

Open Scope string_scope.

(** ** JavaScript values held by the metadata store *)

(** A class (a module or a component) is designated by its name. *)
Abbreviation target := string (only parsing).

(** The values the annotation facility records and the compiler reads:
    strings, arrays of classes, and the two absent values. *)
Inductive value : Type :=
| VUndefined
| VNull
| VStr (s : string)
| VClasses (l : list target).

(** JavaScript truthiness: [undefined], [null] and the empty string are
    falsy; a non-empty string and every array (also the empty one) are
    truthy. *)
Definition truthy (v : value) : bool :=
  match v with
  | VUndefined | VNull => false
  | VStr s => negb (String.eqb s "")
  | VClasses _ => true
  end.

(** ** The metadata store *)

Module Injector.

(** Modelled from the spec: file [lib/compiler/classes/injector.class.ts]
    is absent.  Records are keyed by (target, key) at class scope and by
    (target, key, methodName) at method scope; the store is
    append/overwrite only. *)
Abbreviation store := (gmap (target * option string) (gmap string value))
  (only parsing).

(** Modelled from the spec: the record of a target, a scope (the class
    or one of its methods) and a key, when there is one. *)
Definition record (st : store) (t : target) (scope : option string)
    (key : string) : option value :=
  match st !! (t, scope) with
  | Some keys => keys !! key
  | None => None
  end.

(** Modelled from the spec: recording a value overwrites the record of
    the same target, scope and key and leaves every other record. *)
Definition set (st : store) (t : target) (key : string) (v : value)
    (scope : option string) : store :=
  <[ (t, scope) := <[ key := v ]> (default ∅ (st !! (t, scope))) ]> st.

(** Modelled from the spec: resolution order of [get] is (1) the exact
    method-scope record, (2) the class-scope record, (3) the supplied
    default, (4) an absent result. *)
Definition get (st : store) (t : target) (key : string)
    (defaultValue : option value) (methodScope : option string) : value :=
  let classScope :=
    match record st t None key with
    | Some v => v
    | None => match defaultValue with Some d => d | None => VUndefined end
    end in
  match methodScope with
  | Some m =>
      match record st t (Some m) key with
      | Some v => v
      | None => classScope
      end
  | None => classScope
  end.

(** Modelled from the spec: [getAll] is the mapping of key to value for
    every key recorded for that method scope. *)
Definition getAll (st : store) (t : target) (methodScope : string)
    : gmap string value :=
  default ∅ (st !! (t, Some methodScope)).

(** Modelled from the spec: an instance of a component class, a target
    of its own that remembers the class it was made from. *)
Record instance : Type := Instance { class_of : target }.

(** Modelled from the spec: the activation mechanism returns a usable
    instance of the class; construction details are opaque. *)
Definition resolve (Component : target) : instance :=
  {| class_of := Component |}.

(** Modelled from the spec: [get] on an instance with a method as scope,
    the lookup the route compiler makes (4.3).  It resolves to the
    method-scope record made for that method of the instance's class,
    else to the supplied default, else to an absent result.  The
    class-scope records of the class belong to the class, another
    target, and are not consulted: a method without method-scoped verb
    metadata gets no route, regardless of class-scope metadata (8). *)
Definition get_instance (st : store) (aComponent : instance) (key : string)
    (defaultValue : option value) (methodScope : option string) : value :=
  let absent :=
    match defaultValue with Some d => d | None => VUndefined end in
  match methodScope with
  | Some m =>
      match record st (class_of aComponent) (Some m) key with
      | Some v => v
      | None => absent
      end
  | None => absent
  end.

End Injector.

Arguments Injector.get : simpl never.
Arguments Injector.get_instance : simpl never.
Arguments Injector.getAll : simpl never.

(** ** Path segments *)

(** The element type of [getPath]'s parameter, [string | null | undefined]. *)
Inductive part : Type :=
| PStr (s : string)
| PNull
| PUndefined.

(** The callback [part => part] of [getPath], read as a condition. *)
Definition part_truthy (p : part) : bool :=
  match p with
  | PStr s => negb (String.eqb s "")
  | PNull | PUndefined => false
  end.

(** [Array.prototype.join]: [null] and [undefined] elements are rendered
    as the empty string, the separator goes between consecutive elements. *)
Definition part_text (p : part) : string :=
  match p with
  | PStr s => s
  | PNull | PUndefined => ""
  end.

Definition Array_join (sep : string) (parts : list part) : string :=
  String.concat sep (List.map part_text parts).

(** [getPath(parts)]: [parts.filter(part => part).join('/')]. *)
Definition getPath (parts : list part) : string :=
  Array_join "/" (List.filter part_truthy parts).

(** A value read from the store, used as a path segment.  An array is
    outside the declared type of a segment. *)
Definition as_part (v : value) : option part :=
  match v with
  | VUndefined => Some PUndefined
  | VNull => Some PNull
  | VStr s => Some (PStr s)
  | VClasses _ => None
  end.

(** A value used where the source iterates with [forEach]: only an array
    has it. *)
Definition as_array (v : value) : option (list target) :=
  match v with
  | VClasses l => Some l
  | _ => None
  end.

(** ** Results of the walk *)

(** The walk either completes, or reads metadata outside the type the
    source declares at that point ([forEach] on something that is not an
    array, a path segment or verb that is not a string: JavaScript raises
    a TypeError or coerces an object to text there, which is not followed
    further), or exhausts the recursion budget. *)
Inductive result (A : Type) : Type :=
| Done (a : A)
| IllTyped
| OutOfFuel.

Arguments Done {A} a.
Arguments IllTyped {A}.
Arguments OutOfFuel {A}.

#[global] Instance result_ret : MRet result := fun A a => Done a.

#[global] Instance result_bind : MBind result := fun A B k r =>
  match r with
  | Done a => k a
  | IllTyped => IllTyped
  | OutOfFuel => OutOfFuel
  end.

Definition typed {A : Type} (o : option A) : result A :=
  match o with
  | Some a => Done a
  | None => IllTyped
  end.

(** [Array.prototype.forEach] with a callback that updates the state and
    may fail: elements are visited in index order, a failure stops the
    iteration. *)
Fixpoint forEach {A S : Type} (f : A -> S -> result S) (l : list A) (s : S)
    : result S :=
  match l with
  | [] => Done s
  | x :: l' => s' ← f x s; forEach f l' s'
  end.

(** ** The server facade as the compiler drives it *)

(** The closure [getHandler] returns: the component instance and the
    method name it captures. *)
Record handler : Type := Handler {
  h_component : Injector.instance;
  h_name : string
}.

(** One call [app[method](path, handler)]. *)
Record route : Type := Route {
  r_method : string;
  r_path : string;
  r_handler : handler
}.

Inductive port : Type :=
| PortNumber (n : nat)
| PortString (s : string).

(** The express application: the middleware added with [use], the
    registrations in the order they were made, and the port once
    [listen] was called. *)
Record Application : Type := App {
  middleware : list string;
  routes : list route;
  listening : option port
}.

(** [express()]. *)
Definition express : Application :=
  {| middleware := []; routes := []; listening := None |}.

Definition register (r : route) (app : Application) : Application :=
  {| middleware := middleware app;
     routes := routes app ++ [r];
     listening := listening app |}.

Definition use (m : string) (app : Application) : Application :=
  {| middleware := middleware app ++ [m];
     routes := routes app;
     listening := listening app |}.

Definition listen (p : port) (app : Application) : Application :=
  {| middleware := middleware app;
     routes := routes app;
     listening := Some p |}.

(** ** ServiceCompiler *)

Section ServiceCompiler.

(** [Object.getOwnPropertyNames(C.prototype)] for every class [C]. *)
Variable ownPropertyNames : target -> list string.

(** The metadata recorded before bootstrap runs. *)
Variable st : Injector.store.

(** [getMethodList(Component)]. *)
Definition getMethodList (Component : target) : list string :=
  List.filter (fun name => negb (String.eqb name "constructor"))
    (ownPropertyNames Component).

(** [getHandler(aComponent, name)]. *)
Definition getHandler (aComponent : Injector.instance) (name : string)
    : handler :=
  {| h_component := aComponent; h_name := name |}.

(** [addRoute(method, path, aComponent, name)]:
    [this.app[method]('/' + path, this.getHandler(aComponent, name))].
    Every verb is taken to name a registration method of the facade. *)
Definition addRoute (method path : string)
    (aComponent : Injector.instance) (name : string) (app : Application)
    : Application :=
  register {| r_method := method;
              r_path := "/" ++ path;
              r_handler := getHandler aComponent name |} app.

(** [addRouteFromMethod(Component, method, path)]. *)
Definition addRouteFromMethod (Component : target) (method path : string)
    (app : Application) : result Application :=
  let aComponent := Injector.resolve Component in
  let reqMethod :=
    Injector.get_instance st aComponent "method" (Some VNull) (Some method) in
  if truthy reqMethod then
    sub ← typed (as_part
      (Injector.get_instance st aComponent "path" (Some VNull)
         (Some method)));
    let path := getPath [PStr path; sub] in
    match reqMethod with
    | VStr verb => Done (addRoute verb path aComponent method app)
    | _ => IllTyped
    end
  else Done app.

(** [addExportedComponents(path, includes)]. *)
Definition addExportedComponents (path : string) (includes : value)
    (app : Application) : result Application :=
  components ← typed (as_array includes);
  forEach
    (fun Component app =>
       forEach (fun method app => addRouteFromMethod Component method path app)
         (getMethodList Component) app)
    components app.

(** [unpack(Parent, inputPath)].  The recursion of the source has no
    bound; [fuel] bounds its depth here. *)
Fixpoint unpack (fuel : nat) (Parent : target) (inputPath : string)
    (app : Application) : result Application :=
  match fuel with
  | O => OutOfFuel
  | S fuel' =>
      own ← typed (as_part (Injector.get st Parent "path" (Some (VStr "")) None));
      let path := getPath [PStr inputPath; own] in
      let imports := Injector.get st Parent "imports" (Some (VClasses [])) None in
      app1 ← addExportedComponents path
               (Injector.get st Parent "exports" (Some (VClasses [])) None) app;
      children ← typed (as_array imports);
      forEach (fun Child app => unpack fuel' Child path app) children app1
  end.

(** [addParser()]. *)
Definition addParser (app : Application) : Application :=
  use "json" (use "urlencoded" app).

(** [bootstrap(Parent, port)]; [env_port] is [process.env.port], an
    absent [port_arg] takes the default 3000.  The greeting that [listen]
    prints once the server is up is left out. *)
Definition bootstrap (fuel : nat) (Parent : target) (port_arg : option port)
    (env_port : option string) (app : Application) : result Application :=
  let port := match port_arg with Some p => p | None => PortNumber 3000 end in
  let port :=
    match env_port with
    | Some s => if String.eqb s "" then port else PortString s
    | None => port
    end in
  let app := addParser app in
  app ← unpack fuel Parent "" app;
  Done (listen port app).

End ServiceCompiler.

(** ** The request handler at request time *)

Section RequestHandler.

Variables Request RawResponse Reply Failure : Type.

Variable st : Injector.store.

(** Modelled from the spec: class [HttpResponse] of
    [lib/http/classes/response.class.ts] is absent; the decorated
    response wraps the raw response together with the metadata. *)
Record HttpResponse : Type := new_HttpResponse {
  response : RawResponse;
  meta : gmap string value
}.

(** [aComponent[name]]: the body of a component method, which replies or
    raises. *)
Variable method_body :
  Injector.instance -> string -> Request -> HttpResponse -> Failure + Reply.

(** The closure [(req, res) => { ... }] returned by [getHandler], applied. *)
Definition invoke (h : handler) (req : Request) (res : RawResponse)
    : Failure + Reply :=
  let aComponent := h_component h in
  let name := h_name h in
  let meta := Injector.getAll st (Injector.class_of aComponent) name in
  method_body aComponent name req (new_HttpResponse res meta).

End RequestHandler.

Arguments new_HttpResponse {RawResponse} response meta.
Arguments response {RawResponse} h.
Arguments meta {RawResponse} h.
Arguments invoke {Request RawResponse Reply Failure} st method_body h req res.

(** ** The data model of the specification *)

(** Dropping the empty segments and joining the rest with a slash. *)
Definition present_segments (segments : list string) : list string :=
  List.filter (fun s => negb (String.eqb s "")) segments.

Definition join (segments : list string) : string :=
  String.concat "/" (present_segments segments).

(** The segments a sequence of parts holds, in order: a string entry
    that is not empty is kept, every other entry is dropped. *)
Fixpoint kept_segments (parts : list part) : list string :=
  match parts with
  | [] => []
  | PStr s :: rest =>
      if String.eqb s "" then kept_segments rest else s :: kept_segments rest
  | (PNull | PUndefined) :: rest => kept_segments rest
  end.

(** A method with its method-scoped metadata, absent or a string. *)
Record method_descriptor : Type := Method_descriptor {
  md_name : string;
  httpMethod : option string;
  subPath : option string
}.

Record component_descriptor : Type := Component_descriptor {
  cd_class : target;
  cd_methods : list method_descriptor
}.

(** A module descriptor: a path, the exported components and the imported
    child modules, both in declaration order. *)
#[warnings="-register-all"] Inductive module_descriptor : Type :=
| Module_descriptor (path : string) (exports : list component_descriptor)
    (imports : list module_descriptor).

Definition md_path (d : module_descriptor) : string :=
  match d with Module_descriptor p _ _ => p end.

Definition md_exports (d : module_descriptor) : list component_descriptor :=
  match d with Module_descriptor _ ex _ => ex end.

Definition md_imports (d : module_descriptor) : list module_descriptor :=
  match d with Module_descriptor _ _ im => im end.

Fixpoint height (d : module_descriptor) : nat :=
  match d with
  | Module_descriptor _ _ im => S (list_max (List.map height im))
  end.

(** A verb makes a method eligible when it is present and not empty. *)
Definition eligible (verb : option string) : option string :=
  match verb with
  | Some v => if String.eqb v "" then None else Some v
  | None => None
  end.

(** The route a method compiles to under the prefix [current], if any. *)
Definition compiled_route (current : string) (Component : target)
    (m : method_descriptor) : list route :=
  match eligible (httpMethod m) with
  | Some verb =>
      [ {| r_method := verb;
           r_path := "/" ++ join [current; default "" (subPath m)];
           r_handler := {| h_component := Injector.Instance Component;
                           h_name := md_name m |} |} ]
  | None => []
  end.

Definition component_routes (current : string) (c : component_descriptor)
    : list route :=
  List.flat_map (compiled_route current (cd_class c)) (cd_methods c).

(** The route table of a module tree in the order of the walk: the
    exports of a module at its own path, then each import in turn under
    that path. *)
Fixpoint module_routes (inherited : string) (d : module_descriptor)
    : list route :=
  match d with
  | Module_descriptor p ex im =>
      let current := join [inherited; p] in
      List.flat_map (component_routes current) ex
        ++ List.flat_map (module_routes current) im
  end.

(** The same table with every full path computed at once from all the
    segments between the root and the method. *)
Definition flat_route (segments : list string) (Component : target)
    (m : method_descriptor) : list route :=
  match eligible (httpMethod m) with
  | Some verb =>
      [ {| r_method := verb;
           r_path := "/" ++ join (segments ++ [default "" (subPath m)])%list;
           r_handler := {| h_component := Injector.Instance Component;
                           h_name := md_name m |} |} ]
  | None => []
  end.

Fixpoint flat_routes (above : list string) (d : module_descriptor)
    : list route :=
  match d with
  | Module_descriptor p ex im =>
      let segments := (above ++ [p])%list in
      List.flat_map
        (fun c => List.flat_map (flat_route segments (cd_class c)) (cd_methods c))
        ex
        ++ List.flat_map (flat_routes segments) im
  end.

(** Appending registrations to an application. *)
Definition register_all (rs : list route) (app : Application) : Application :=
  {| middleware := middleware app;
     routes := routes app ++ rs;
     listening := listening app |}.

(** ** Metadata that follows the data model *)

Section Describes.

Variable ownPropertyNames : target -> list string.
Variable st : Injector.store.

(** A value read from the store against an optional string of the data
    model. *)
Definition reads (v : value) (o : option string) : Prop :=
  match o with
  | Some s => v = VStr s
  | None => v = VNull \/ v = VUndefined
  end.

Definition describes_method (Component : target) (m : method_descriptor)
    : Prop :=
  reads
    (Injector.get_instance st (Injector.resolve Component) "method"
       (Some VNull) (Some (md_name m)))
    (httpMethod m)
  /\ reads
       (Injector.get_instance st (Injector.resolve Component) "path"
          (Some VNull) (Some (md_name m)))
       (subPath m).

Definition describes_component (Component : target)
    (c : component_descriptor) : Prop :=
  Component = cd_class c
  /\ getMethodList ownPropertyNames Component = List.map md_name (cd_methods c)
  /\ Forall (describes_method Component) (cd_methods c).

(** The records of class [Parent], and of the classes it imports, unfold
    to the module tree [d]. *)
Fixpoint describes (Parent : target) (d : module_descriptor) {struct d}
    : Prop :=
  match d with
  | Module_descriptor p ex im =>
      Injector.get st Parent "path" (Some (VStr "")) None = VStr p
      /\ (exists components,
            Injector.get st Parent "exports" (Some (VClasses [])) None
              = VClasses components
            /\ Forall2 describes_component components ex)
      /\ (exists children,
            Injector.get st Parent "imports" (Some (VClasses [])) None
              = VClasses children
            /\ (fix each (ds : list module_descriptor) (cs : list target)
                    {struct ds} : Prop :=
                  match ds, cs with
                  | [], [] => True
                  | d' :: ds', c :: cs' => describes c d' /\ each ds' cs'
                  | _, _ => False
                  end) im children)
  end.

(** The import edges of the store, and the typing of what the walk
    reads at a module. *)
Definition imports_of (Parent : target) : option (list target) :=
  as_array (Injector.get st Parent "imports" (Some (VClasses [])) None).

Definition imports_edge (Parent Child : target) : Prop :=
  exists children, imports_of Parent = Some children /\ In Child children.

Definition method_typed (Component : target) (method : string) : Prop :=
  addRouteFromMethod st Component method "" express <> IllTyped.

Definition module_typed (Parent : target) : Prop :=
  as_part (Injector.get st Parent "path" (Some (VStr "")) None) <> None
  /\ (exists components,
        Injector.get st Parent "exports" (Some (VClasses [])) None
          = VClasses components
        /\ forall Component method,
             In Component components ->
             In method (getMethodList ownPropertyNames Component) ->
             method_typed Component method)
  /\ imports_of Parent <> None.

(** A module from which a cycle of imports can be reached. *)
Definition reaches_cycle (Parent : target) : Prop :=
  exists N, rtc imports_edge Parent N /\ tc imports_edge N N.

(** Some call of the walk at [Parent] returns within the budget. *)
Definition completes (fuel : nat) (Parent : target) : Prop :=
  exists inputPath app app',
    unpack ownPropertyNames st fuel Parent inputPath app = Done app'.

(** A path handed to the server facade starts with a slash. *)
Definition leading_slash (r : route) : Prop :=
  exists rest, r_path r = "/" ++ rest.

(** [app'] is [app] after further registrations, all with such a path. *)
Definition extends (app app' : Application) : Prop :=
  exists rs, app' = register_all rs app /\ Forall leading_slash rs.

End Describes.

(** ** Where registrations come from *)

Section Provenance.

Variable ownPropertyNames : target -> list string.
Variable st : Injector.store.

(** A route whose handler is a method the prototype of its component
    class lists, other than the constructor, registered under the verb
    the store resolves for that method. *)
Definition from_metadata (r : route) : Prop :=
  let Component := Injector.class_of (h_component (r_handler r)) in
  let name := h_name (r_handler r) in
  In name (ownPropertyNames Component)
  /\ name <> "constructor"
  /\ r_method r <> ""
  /\ Injector.get_instance st (h_component (r_handler r)) "method"
       (Some VNull) (Some name)
     = VStr (r_method r).

(** A route registered below the path [inputPath]. *)
Definition under_prefix (inputPath : string) (r : route) : Prop :=
  exists rest, r_path r = "/" ++ inputPath ++ rest.

(** What a route satisfies when it is registered below [path]. *)
Definition registered_below (path : string) (r : route) : Prop :=
  from_metadata r /\ under_prefix path r.

(** [app'] is [app] after further registrations that all satisfy [Q]. *)
Definition adds (Q : route -> Prop) (app app' : Application) : Prop :=
  exists rs, app' = register_all rs app /\ Forall Q rs.

(** A step on the application that does the same whatever the
    application holds: it appends fixed registrations, or fails. *)
Definition framed (f : Application -> result Application) : Prop :=
  (exists rs, forall app, f app = Done (register_all rs app))
  \/ (forall app, f app = IllTyped)
  \/ (forall app, f app = OutOfFuel).

(** The methods of the exported components, component by component. *)
Definition method_pairs (components : list target)
    : list (target * string) :=
  List.flat_map
    (fun Component =>
       List.map (pair Component) (getMethodList ownPropertyNames Component))
    components.

(** The test [if (reqMethod)] of [addRouteFromMethod] for a method. *)
Definition has_verb (cm : target * string) : bool :=
  truthy
    (Injector.get_instance st (Injector.resolve (fst cm)) "method"
       (Some VNull) (Some (snd cm))).

Definition handler_of (cm : target * string) : handler :=
  getHandler (Injector.resolve (fst cm)) (snd cm).

(** A registration without its path: the verb and the handler. *)
Definition endpoint (r : route) : string * handler :=
  (r_method r, r_handler r).

(** Two steps on the application that fail alike or append registrations
    with the same verbs and handlers in the same order. *)
Definition same_endpoints (f g : Application -> result Application) : Prop :=
  (exists r1 r2,
      (forall app, f app = Done (register_all r1 app))
      /\ (forall app, g app = Done (register_all r2 app))
      /\ List.map endpoint r1 = List.map endpoint r2)
  \/ ((forall app, f app = IllTyped) /\ (forall app, g app = IllTyped))
  \/ ((forall app, f app = OutOfFuel) /\ (forall app, g app = OutOfFuel)).

(** The port [bootstrap] listens on. *)
Definition effective_port (port_arg : option port) (env_port : option string)
    : port :=
  match env_port with
  | Some (String c s) => PortString (String c s)
  | _ => match port_arg with Some p => p | None => PortNumber 3000 end
  end.

End Provenance.

(** ** Sample programs *)

Module Examples.

(** The method names of the sample classes. *)
Definition names (C : target) : list string :=
  if String.eqb C "StuffComponent" then ["constructor"; "getStuff"]
  else if String.eqb C "First" then ["constructor"; "serve"]
  else if String.eqb C "Second" then ["constructor"; "serve"]
  else if String.eqb C "Widget" then ["constructor"; "plain"]
  else ["constructor"].

(** A module at path [root] exporting a component whose method
    [getStuff] is mapped to verb [get] and sub-path [stuff]. *)
Definition stuff_store : Injector.store :=
  Injector.set
    (Injector.set
       (Injector.set
          (Injector.set
             (Injector.set ∅ "AppModule" "path" (VStr "root") None)
             "AppModule" "exports" (VClasses ["StuffComponent"]) None)
          "AppModule" "imports" (VClasses []) None)
       "StuffComponent" "method" (VStr "get") (Some "getStuff"))
    "StuffComponent" "path" (VStr "stuff") (Some "getStuff").

(** A root module at path [x] exporting [First] and importing a child
    module, without a path of its own, that exports [Second]; both
    components map their method [serve] to verb [get]. *)
Definition shadow_store : Injector.store :=
  Injector.set
    (Injector.set
       (Injector.set
          (Injector.set
             (Injector.set
                (Injector.set ∅ "RootModule" "path" (VStr "x") None)
                "RootModule" "exports" (VClasses ["First"]) None)
             "RootModule" "imports" (VClasses ["ChildModule"]) None)
          "ChildModule" "exports" (VClasses ["Second"]) None)
       "First" "method" (VStr "get") (Some "serve"))
    "Second" "method" (VStr "get") (Some "serve").

Definition serve_get : list method_descriptor :=
  [ {| md_name := "serve"; httpMethod := Some "get"; subPath := None |} ].

Definition shadow_tree : module_descriptor :=
  Module_descriptor "x"
    [ {| cd_class := "First"; cd_methods := serve_get |} ]
    [ Module_descriptor ""
        [ {| cd_class := "Second"; cd_methods := serve_get |} ] [] ].

(** A module that imports itself. *)
Definition loop_store : Injector.store :=
  Injector.set ∅ "LoopModule" "imports" (VClasses ["LoopModule"]) None.

(** A component with a verb recorded at class scope only. *)
Definition class_verb_store : Injector.store :=
  Injector.set ∅ "Widget" "method" (VStr "get") None.

Definition route_of (verb path : string) (Component : target)
    (method : string) : route :=
  {| r_method := verb;
     r_path := path;
     r_handler := {| h_component := Injector.Instance Component;
                     h_name := method |} |}.

End Examples.

(** * Properties *)

(** ** Path joining *)

Lemma getPath_kept_segments (parts : list part) :
  getPath parts = String.concat "/" (kept_segments parts).
Proof.
  unfold getPath, Array_join.
  f_equal.
  induction parts as [|p rest IH]; [reflexivity|].
  destruct p as [s| |]; simpl; try exact IH.
  destruct (String.eqb s ""); simpl; [exact IH|].
  now rewrite IH.
Qed.

Lemma kept_segments_strings (segments : list string) :
  kept_segments (List.map PStr segments) = present_segments segments.
Proof.
  induction segments as [|s rest IH]; [reflexivity|].
  simpl. destruct (String.eqb s ""); simpl; now rewrite IH.
Qed.

Lemma getPath_strings (segments : list string) :
  getPath (List.map PStr segments) = join segments.
Proof.
  rewrite getPath_kept_segments, kept_segments_strings. reflexivity.
Qed.

Lemma concat_empty_iff (l : list string) :
  Forall (fun s => s <> "") l -> String.concat "/" l = "" -> l = [].
Proof.
  intros Hl Hc. destruct l as [|a l]; [reflexivity|].
  exfalso. inversion Hl as [|? ? Ha _]; subst.
  destruct l as [|b l]; simpl in Hc.
  - now apply Ha.
  - destruct a; [now apply Ha | discriminate].
Qed.

Lemma present_segments_nonempty (l : list string) :
  Forall (fun s => s <> "") (present_segments l).
Proof.
  unfold present_segments. apply List.Forall_forall. intros s Hs.
  apply List.filter_In in Hs. destruct Hs as [_ Hs].
  intros ->. discriminate.
Qed.

Lemma append_assoc (a b c : string) : (a ++ b) ++ c = a ++ b ++ c.
Proof.
  induction a as [|x a IH]; [reflexivity|].
  change (String x ((a ++ b) ++ c) = String x (a ++ b ++ c)).
  now rewrite IH.
Qed.

Lemma concat_app_nonempty (l1 l2 : list string) :
  l1 <> [] -> l2 <> [] ->
  String.concat "/" (l1 ++ l2)
  = String.concat "/" l1 ++ "/" ++ String.concat "/" l2.
Proof.
  intros H1 H2. induction l1 as [|a l1 IH]; [congruence|].
  destruct l1 as [|b l1].
  - simpl. destruct l2; [congruence|reflexivity].
  - change ((a :: b :: l1) ++ l2)%list with (a :: (b :: l1) ++ l2)%list.
    change (String.concat "/" (a :: (b :: l1) ++ l2)%list)
      with (a ++ "/" ++ String.concat "/" ((b :: l1) ++ l2)%list).
    rewrite IH by congruence.
    change (String.concat "/" (a :: b :: l1))
      with (a ++ "/" ++ String.concat "/" (b :: l1)).
    rewrite !append_assoc. reflexivity.
Qed.

(** Joining a joined prefix with one more segment is joining all the
    segments at once. *)
Lemma join_nested (above : list string) (s : string) :
  join [join above; s] = join (above ++ [s]).
Proof.
  unfold join at 1 3. unfold present_segments at 1 2.
  rewrite List.filter_app. fold (present_segments above).
  assert (Hne := present_segments_nonempty above).
  destruct (String.eqb_spec (join above) "") as [He|He].
  - unfold join in He. apply concat_empty_iff in He; [|exact Hne].
    unfold join. rewrite He. simpl.
    destruct (String.eqb s ""); reflexivity.
  - simpl List.filter at 1.
    destruct (String.eqb (join above) "") eqn:E.
    { apply String.eqb_eq in E. contradiction. }
    simpl negb. cbv iota.
    assert (Hp : present_segments above <> []).
    { intros Hp. apply He. unfold join. now rewrite Hp. }
    simpl List.filter.
    destruct (String.eqb s ""); simpl negb; cbv iota.
    + rewrite List.app_nil_r. reflexivity.
    + rewrite concat_app_nonempty by (trivial; discriminate). reflexivity.
Qed.

(** ** Registrations *)

Lemma register_all_nil (app : Application) : register_all [] app = app.
Proof. destruct app. unfold register_all. simpl. now rewrite List.app_nil_r. Qed.

Lemma register_all_app (rs1 rs2 : list route) (app : Application) :
  register_all rs2 (register_all rs1 app) = register_all (rs1 ++ rs2) app.
Proof. unfold register_all. simpl. now rewrite List.app_assoc. Qed.

Section Refinement.

Variable ownPropertyNames : target -> list string.
Variable st : Injector.store.

Lemma addRouteFromMethod_describes Component m current app :
  describes_method st Component m ->
  addRouteFromMethod st Component (md_name m) current app
  = Done (register_all (compiled_route current Component m) app).
Proof.
  intros [Hv Hs]. unfold addRouteFromMethod, compiled_route.
  cbv zeta.
  destruct (httpMethod m) as [verb|]; simpl in Hv.
  - rewrite Hv. simpl. destruct (String.eqb verb "") eqn:E; simpl.
    + now rewrite register_all_nil.
    + destruct (subPath m) as [sub|]; simpl in Hs.
      * rewrite Hs. simpl.
        change [PStr current; PStr sub] with (List.map PStr [current; sub]).
        rewrite getPath_strings. reflexivity.
      * assert (Hg : forall p, p = PNull \/ p = PUndefined ->
                  getPath [PStr current; p] = join [current; ""]).
        { intros p [-> | ->]; rewrite getPath_kept_segments;
            unfold join, present_segments; simpl;
            destruct (String.eqb current ""); reflexivity. }
        destruct Hs as [Hs|Hs]; rewrite Hs; simpl; rewrite Hg by auto;
          reflexivity.
  - destruct Hv as [Hv|Hv]; rewrite Hv; simpl; now rewrite register_all_nil.
Qed.

Lemma methods_describes Component ms current app :
  Forall (describes_method st Component) ms ->
  forEach (fun method app => addRouteFromMethod st Component method current app)
    (List.map md_name ms) app
  = Done (register_all
            (List.flat_map (compiled_route current Component) ms) app).
Proof.
  intros H. revert app. induction H as [|m ms Hm _ IH]; intros app.
  - simpl. now rewrite register_all_nil.
  - simpl. rewrite (addRouteFromMethod_describes _ _ _ _ Hm). simpl.
    rewrite IH, register_all_app. reflexivity.
Qed.

Lemma addExportedComponents_describes components ex current app :
  Forall2 (describes_component ownPropertyNames st) components ex ->
  addExportedComponents ownPropertyNames st current (VClasses components) app
  = Done (register_all (List.flat_map (component_routes current) ex) app).
Proof.
  intros H. unfold addExportedComponents. simpl.
  revert app. induction H as [|C c cs ex' Hc _ IH]; intros app.
  - simpl. now rewrite register_all_nil.
  - simpl. destruct Hc as (-> & Hl & Hm).
    rewrite Hl, (methods_describes _ _ _ _ Hm). simpl.
    rewrite IH, register_all_app. reflexivity.
Qed.

End Refinement.

(** ** The walk over a module tree *)

Lemma module_descriptor_tree_ind (P : module_descriptor -> Prop) :
  (forall p ex im, Forall P im -> P (Module_descriptor p ex im)) ->
  forall d, P d.
Proof.
  intros step. fix IH 1. intros [p ex im]. apply step.
  induction im as [|d im IHim]; constructor; [apply IH | exact IHim].
Qed.

Section Walk.

Variable ownPropertyNames : target -> list string.
Variable st : Injector.store.

Lemma describes_unfold Parent p ex im :
  describes ownPropertyNames st Parent (Module_descriptor p ex im) <->
  Injector.get st Parent "path" (Some (VStr "")) None = VStr p
  /\ (exists components,
        Injector.get st Parent "exports" (Some (VClasses [])) None
          = VClasses components
        /\ Forall2 (describes_component ownPropertyNames st) components ex)
  /\ (exists children,
        Injector.get st Parent "imports" (Some (VClasses [])) None
          = VClasses children
        /\ Forall2 (describes ownPropertyNames st) children im).
Proof.
  cbn [describes].
  set (each := fix each (ds : list module_descriptor) (cs : list target)
                   {struct ds} : Prop :=
                 match ds, cs with
                 | [], [] => True
                 | d' :: ds', c :: cs' =>
                     describes ownPropertyNames st c d' /\ each ds' cs'
                 | _, _ => False
                 end).
  assert (Heach : forall ds cs,
             each ds cs <-> Forall2 (describes ownPropertyNames st) cs ds).
  { induction ds as [|d ds IH]; intros [|c cs]; simpl; split; intros H;
      try (now inversion H); try (now constructor).
    - destruct H as [Hd Hds]. constructor; [exact Hd | now apply IH].
    - inversion H; subst. split; [assumption | now apply IH]. }
  split; intros (Hp & Hex & children & Him & Hch); (split; [exact Hp|]);
    (split; [exact Hex|]); exists children; (split; [exact Him|]);
    now apply Heach.
Qed.

Lemma unpack_describes (d : module_descriptor) :
  forall Parent fuel inputPath app,
    describes ownPropertyNames st Parent d ->
    height d <= fuel ->
    unpack ownPropertyNames st fuel Parent inputPath app
    = Done (register_all (module_routes inputPath d) app).
Proof.
  induction d as [p ex im IH] using module_descriptor_tree_ind.
  intros Parent fuel inputPath app Hd Hf.
  apply describes_unfold in Hd.
  destruct Hd as (Hp & (components & Hex & Hcs) & (children & Him & Hch)).
  destruct fuel as [|fuel]; [simpl in Hf; lia|].
  cbn [unpack]. rewrite Hp, Hex, Him. simpl typed. cbn [mbind result_bind].
  change [PStr inputPath; PStr p] with (List.map PStr [inputPath; p]).
  rewrite getPath_strings.
  rewrite (addExportedComponents_describes _ _ _ _ _ _ Hcs).
  cbn [mbind result_bind module_routes].
  rewrite <- register_all_app.
  generalize (register_all
                (List.flat_map (component_routes (join [inputPath; p])) ex)
                app) as app1.
  simpl in Hf. apply le_S_n in Hf.
  clear Hp Hex Him Hcs.
  induction Hch as [|c d cs ds Hc _ IHch]; intros app1.
  - simpl. now rewrite register_all_nil.
  - simpl in Hf. inversion IH as [|? ? IHd IHds]; subst.
    simpl. rewrite (IHd c fuel _ _ Hc) by lia.
    cbn [mbind result_bind].
    rewrite IHch by (trivial; lia).
    rewrite register_all_app. reflexivity.
Qed.

Lemma module_routes_flat (d : module_descriptor) (above : list string) :
  module_routes (join above) d = flat_routes above d.
Proof.
  revert above.
  induction d as [p ex im IH] using module_descriptor_tree_ind.
  intros above. cbn [module_routes flat_routes].
  rewrite join_nested. f_equal.
  - apply List.flat_map_ext. intros c. unfold component_routes.
    apply List.flat_map_ext. intros m.
    unfold compiled_route, flat_route.
    destruct (eligible (httpMethod m)); [|reflexivity].
    now rewrite join_nested.
  - induction IH as [|d ds Hd _ IHds]; [reflexivity|].
    simpl. now rewrite Hd, IHds.
Qed.

End Walk.

(** ** Iteration *)

Lemma forEach_preserves {A S : Type} (P : S -> Prop) (f : A -> S -> result S)
    (l : list A) :
  (forall x s s', In x l -> f x s = Done s' -> P s -> P s') ->
  forall s s', forEach f l s = Done s' -> P s -> P s'.
Proof.
  induction l as [|x l IH]; intros Hf s s' Hr Hs.
  - simpl in Hr. now inversion Hr; subst.
  - simpl in Hr. destruct (f x s) as [s1| |] eqn:E; try discriminate.
    cbn [mbind result_bind] in Hr.
    apply (IH (fun y t t' Hy => Hf y t t' (or_intror Hy)) s1 s' Hr).
    apply (Hf x s s1 (or_introl eq_refl) E Hs).
Qed.

Lemma forEach_transfer {A S : Type} (f g : A -> S -> result S) (l : list A) :
  (forall x s r, In x l -> f x s = r -> r <> OutOfFuel -> g x s = r) ->
  forall s r, forEach f l s = r -> r <> OutOfFuel -> forEach g l s = r.
Proof.
  induction l as [|x l IH]; intros Hfg s r Hr Hne; [exact Hr|].
  simpl in *. destruct (f x s) as [s1| |] eqn:E; cbn [mbind result_bind] in Hr.
  - rewrite (Hfg x s (Done s1)) by (auto; discriminate).
    cbn [mbind result_bind]. apply IH; auto.
  - rewrite (Hfg x s IllTyped) by (auto; discriminate). exact Hr.
  - congruence.
Qed.

Lemma forEach_not_IllTyped {A S : Type} (f : A -> S -> result S) (l : list A) :
  (forall x s, In x l -> f x s <> IllTyped) ->
  forall s, forEach f l s <> IllTyped.
Proof.
  induction l as [|x l IH]; intros Hf s; [discriminate|].
  simpl. destruct (f x s) as [s1| |] eqn:E; cbn [mbind result_bind].
  - apply IH. intros y t Hy. apply Hf. now right.
  - exfalso. apply (Hf x s); [now left | exact E].
  - discriminate.
Qed.

Lemma forEach_all_Done {A S : Type} (f : A -> S -> result S) (l : list A) :
  (forall x s, In x l -> exists s', f x s = Done s') ->
  forall s, exists s', forEach f l s = Done s'.
Proof.
  induction l as [|x l IH]; intros Hf s; [now exists s|].
  simpl. destruct (Hf x s (or_introl eq_refl)) as [s1 E]. rewrite E.
  cbn [mbind result_bind]. apply IH. intros y t Hy. apply Hf. now right.
Qed.

Lemma forEach_OutOfFuel {A S : Type} (f : A -> S -> result S) (l : list A)
    (c : A) :
  In c l ->
  (forall s, f c s = OutOfFuel) ->
  (forall x s, In x l -> f x s <> IllTyped) ->
  forall s, forEach f l s = OutOfFuel.
Proof.
  induction l as [|x l IH]; intros Hc Hdiv Hty s; [contradiction|].
  simpl. destruct (f x s) as [s1| |] eqn:E; cbn [mbind result_bind].
  - destruct Hc as [->|Hc]; [rewrite Hdiv in E; discriminate|].
    apply IH; auto. intros y t Hy. apply Hty. now right.
  - exfalso. apply (Hty x s); [now left | exact E].
  - reflexivity.
Qed.

Lemma forEach_Done_each {A S : Type} (f : A -> S -> result S) (l : list A) :
  forall s s', forEach f l s = Done s' ->
  forall x, In x l -> exists t t', f x t = Done t'.
Proof.
  induction l as [|y l IH]; intros s s' Hr x Hx; [contradiction|].
  simpl in Hr. destruct (f y s) as [s1| |] eqn:E; try discriminate.
  cbn [mbind result_bind] in Hr.
  destruct Hx as [->|Hx]; [now exists s, s1 | exact (IH _ _ Hr x Hx)].
Qed.

(** ** Recursion budget *)

Section Fuel.

Variable ownPropertyNames : target -> list string.
Variable st : Injector.store.

Lemma unpack_fuel_S fuel :
  forall Parent inputPath app r,
    unpack ownPropertyNames st fuel Parent inputPath app = r ->
    r <> OutOfFuel ->
    unpack ownPropertyNames st (S fuel) Parent inputPath app = r.
Proof.
  induction fuel as [|fuel IH]; intros Parent inputPath app r Hr Hne.
  - simpl in Hr. congruence.
  - revert Hr. cbn [unpack].
    destruct (typed (as_part _)) as [own| |]; cbn [mbind result_bind]; auto.
    destruct (addExportedComponents _ _ _ _ _) as [app1| |];
      cbn [mbind result_bind]; auto.
    destruct (typed (as_array _)) as [children| |];
      cbn [mbind result_bind]; auto.
    intros Hr. apply (forEach_transfer _ _ _) with (2 := Hr); auto.
    intros Child s r' _ Hc Hn. now apply IH.
Qed.

Lemma unpack_fuel_le fuel fuel' Parent inputPath app r :
  fuel <= fuel' ->
  unpack ownPropertyNames st fuel Parent inputPath app = r ->
  r <> OutOfFuel ->
  unpack ownPropertyNames st fuel' Parent inputPath app = r.
Proof.
  induction 1 as [|fuel' _ IH]; intros Hr Hne; [exact Hr|].
  apply unpack_fuel_S; auto.
Qed.

End Fuel.

(** ** Typed metadata and cyclic imports *)

Section Cycles.

Variable ownPropertyNames : target -> list string.
Variable st : Injector.store.

Lemma addRouteFromMethod_shape Component method :
  (forall path app,
      addRouteFromMethod st Component method path app = IllTyped)
  \/ (forall path app,
         addRouteFromMethod st Component method path app = Done app)
  \/ (exists verb sub,
         verb <> ""
         /\ Injector.get_instance st (Injector.resolve Component) "method"
              (Some VNull) (Some method)
            = VStr verb
         /\ as_part
              (Injector.get_instance st (Injector.resolve Component) "path"
                 (Some VNull) (Some method))
            = Some sub
         /\ forall path app,
             addRouteFromMethod st Component method path app
             = Done (addRoute verb (getPath [PStr path; sub])
                       (Injector.resolve Component) method app)).
Proof.
  unfold addRouteFromMethod. cbv zeta.
  destruct (Injector.get_instance st (Injector.resolve Component) "method"
              (Some VNull) (Some method))
    as [| |verb|l] eqn:Ev; simpl truthy; cbv iota.
  - right; left; reflexivity.
  - right; left; reflexivity.
  - destruct (String.eqb_spec verb "") as [Hv|Hv]; simpl negb; cbv iota.
    + right; left; reflexivity.
    + destruct (as_part
                  (Injector.get_instance st (Injector.resolve Component)
                     "path" (Some VNull) (Some method))) as [sub|] eqn:Es;
        simpl typed; cbn [mbind result_bind].
      * right; right. exists verb, sub. repeat split; auto.
      * left; reflexivity.
  - left. intros path app.
    destruct (as_part _) as [sub|]; reflexivity.
Qed.

Lemma method_typed_Done Component method path app :
  method_typed st Component method ->
  exists app', addRouteFromMethod st Component method path app = Done app'.
Proof.
  unfold method_typed. intros Hty.
  destruct (addRouteFromMethod_shape Component method)
    as [H | [H | (verb & sub & _ & _ & _ & H)]].
  - now rewrite H in Hty.
  - rewrite H. eauto.
  - rewrite H. eauto.
Qed.

Lemma module_typed_exports Parent path app :
  module_typed ownPropertyNames st Parent ->
  exists app',
    addExportedComponents ownPropertyNames st path
      (Injector.get st Parent "exports" (Some (VClasses [])) None) app
    = Done app'.
Proof.
  intros (_ & (components & Hex & Hms) & _). rewrite Hex.
  unfold addExportedComponents. simpl typed. cbn [mbind result_bind].
  apply forEach_all_Done. intros Component app1 HC.
  apply forEach_all_Done. intros method app2 Hm.
  apply method_typed_Done. now apply Hms.
Qed.

Abbreviation edge := (imports_edge st).
Abbreviation reaches_cycle := (reaches_cycle st).
Abbreviation completes := (completes ownPropertyNames st).

Lemma unpack_typed fuel :
  forall Parent inputPath app,
    (forall M, rtc edge Parent M -> module_typed ownPropertyNames st M) ->
    unpack ownPropertyNames st fuel Parent inputPath app <> IllTyped.
Proof.
  induction fuel as [|fuel IH]; intros Parent inputPath app Hty;
    [discriminate|].
  assert (Hp := Hty Parent (rtc_refl _ _)).
  cbn [unpack].
  destruct Hp as (Hpath & Hex & Him).
  destruct (as_part _) as [own|]; [|congruence].
  simpl typed. cbn [mbind result_bind].
  destruct (module_typed_exports Parent (getPath [PStr inputPath; own]) app
              (Hty Parent (rtc_refl _ _))) as [app1 ->].
  cbn [mbind result_bind].
  unfold imports_of in Him.
  destruct (as_array _) as [children|] eqn:Ec; [|congruence].
  simpl typed. cbn [mbind result_bind].
  apply forEach_not_IllTyped. intros Child s HC.
  apply IH. intros M HM. apply Hty.
  eapply rtc_l; [|exact HM]. exists children. split; [exact Ec | exact HC].
Qed.

Lemma tc_first_step N M :
  tc edge N M -> exists Q, edge N Q /\ rtc edge Q M.
Proof.
  intros Htc. destruct Htc as [P Q HPQ | P Q R HPQ HQR].
  - exists Q. split; [exact HPQ | constructor].
  - exists Q. split; [exact HPQ | now apply tc_rtc].
Qed.

Lemma reaches_cycle_child Parent :
  reaches_cycle Parent ->
  exists Child, edge Parent Child /\ reaches_cycle Child.
Proof.
  intros (N & Hr & Hc). destruct Hr as [P | P Q N HPQ HQN].
  - destruct (tc_first_step P P Hc) as (Q & HPQ & HQP).
    exists Q. split; [exact HPQ|]. exists P. split; assumption.
  - exists Q. split; [exact HPQ|]. exists N. split; assumption.
Qed.

Lemma unpack_reaches_cycle fuel :
  forall Parent inputPath app,
    (forall M, rtc edge Parent M -> module_typed ownPropertyNames st M) ->
    reaches_cycle Parent ->
    unpack ownPropertyNames st fuel Parent inputPath app = OutOfFuel.
Proof.
  induction fuel as [|fuel IH]; intros Parent inputPath app Hty Hcy;
    [reflexivity|].
  destruct (reaches_cycle_child Parent Hcy)
    as (Child & (children & Hch & HC) & HcyC).
  cbn [unpack].
  destruct (Hty Parent (rtc_refl _ _)) as (Hpath & _ & _).
  destruct (as_part _) as [own|]; [|congruence].
  simpl typed. cbn [mbind result_bind].
  destruct (module_typed_exports Parent (getPath [PStr inputPath; own]) app
              (Hty Parent (rtc_refl _ _))) as [app1 ->].
  cbn [mbind result_bind].
  unfold imports_of in Hch. rewrite Hch.
  simpl typed. cbn [mbind result_bind].
  assert (Hsub : forall X, In X children ->
             forall M, rtc edge X M -> module_typed ownPropertyNames st M).
  { intros X HX M HM. apply Hty. eapply rtc_l; [|exact HM].
    exists children. split; [exact Hch | exact HX]. }
  apply forEach_OutOfFuel with (c := Child); [exact HC | |].
  - intros s. apply IH; [now apply Hsub | exact HcyC].
  - intros X s HX. apply unpack_typed. now apply Hsub.
Qed.

(** Without any typing assumption the walk still never completes. *)
Lemma completes_child fuel Parent Child :
  completes (S fuel) Parent -> edge Parent Child -> completes fuel Child.
Proof.
  intros (inputPath & app & app' & Hr) (children & Hch & HC).
  cbn [unpack] in Hr.
  destruct (typed (as_part _)) as [own| |]; try discriminate.
  cbn [mbind result_bind] in Hr.
  destruct (addExportedComponents _ _ _ _ _) as [app1| |]; try discriminate.
  cbn [mbind result_bind] in Hr.
  unfold imports_of in Hch. rewrite Hch in Hr.
  simpl typed in Hr. cbn [mbind result_bind] in Hr.
  destruct (forEach_Done_each _ _ _ _ Hr Child HC) as (t & t' & Ht).
  now exists (getPath [PStr inputPath; own]), t, t'.
Qed.

Lemma completes_rtc Parent N :
  rtc edge Parent N ->
  forall fuel, completes fuel Parent ->
  exists fuel', fuel' <= fuel /\ completes fuel' N.
Proof.
  induction 1 as [P | P Q N HPQ _ IH]; intros fuel Hc.
  - exists fuel. split; [lia | exact Hc].
  - destruct fuel as [|fuel].
    + destruct Hc as (? & ? & ? & Hr). discriminate.
    + destruct (IH fuel (completes_child _ _ _ Hc HPQ)) as (f' & Hle & Hf').
      exists f'. split; [lia | exact Hf'].
Qed.

Lemma completes_tc N M :
  tc edge N M ->
  forall fuel, completes fuel N ->
  exists fuel', fuel' < fuel /\ completes fuel' M.
Proof.
  intros Htc fuel Hc.
  destruct (tc_first_step N M Htc) as (Q & HNQ & HQM).
  destruct fuel as [|fuel].
  - destruct Hc as (? & ? & ? & Hr). discriminate.
  - destruct (completes_rtc Q M HQM fuel (completes_child _ _ _ Hc HNQ))
      as (f' & Hle & Hf').
    exists f'. split; [lia | exact Hf'].
Qed.

Lemma cycle_never_completes N :
  tc edge N N -> forall fuel, ~ completes fuel N.
Proof.
  intros Htc fuel. induction fuel as [fuel IH] using lt_wf_ind.
  intros Hc. destruct (completes_tc N N Htc fuel Hc) as (f' & Hlt & Hf').
  exact (IH f' Hlt Hf').
Qed.

End Cycles.

(** ** Registrations only extend the route table *)

Section Extends.

Variable ownPropertyNames : target -> list string.
Variable st : Injector.store.

Lemma extends_refl app : extends app app.
Proof. exists []. split; [now rewrite register_all_nil | constructor]. Qed.

Lemma extends_trans a b c : extends a b -> extends b c -> extends a c.
Proof.
  intros (r1 & -> & H1) (r2 & -> & H2). exists (r1 ++ r2)%list.
  split; [apply register_all_app | now apply List.Forall_app].
Qed.

Lemma forEach_extends {A : Type} (f : A -> Application -> result Application)
    (l : list A) :
  (forall x s s', In x l -> f x s = Done s' -> extends s s') ->
  forall s s', forEach f l s = Done s' -> extends s s'.
Proof.
  intros Hf s s' Hr.
  apply (forEach_preserves (extends s) f l) with (s := s) (s' := s');
    [|exact Hr | apply extends_refl].
  intros x t t' Hx Ht Hst. eapply extends_trans; [exact Hst|].
  now apply (Hf x t t').
Qed.

Lemma addRoute_extends verb path aComponent name app :
  extends app (addRoute verb path aComponent name app).
Proof.
  exists [ {| r_method := verb; r_path := "/" ++ path;
              r_handler := getHandler aComponent name |} ].
  split; [reflexivity|]. constructor; [|constructor]. now exists path.
Qed.

Lemma addRouteFromMethod_extends Component method path app app' :
  addRouteFromMethod st Component method path app = Done app' ->
  extends app app'.
Proof.
  destruct (addRouteFromMethod_shape st Component method)
    as [H | [H | (verb & sub & _ & _ & _ & H)]]; rewrite H; intros E;
    inversion E; subst.
  - apply extends_refl.
  - apply addRoute_extends.
Qed.

Lemma addExportedComponents_extends path includes app app' :
  addExportedComponents ownPropertyNames st path includes app = Done app' ->
  extends app app'.
Proof.
  unfold addExportedComponents.
  destruct (as_array includes) as [components|]; [|discriminate].
  simpl typed. cbn [mbind result_bind].
  apply forEach_extends. intros Component s s' _.
  apply forEach_extends. intros method t t' _.
  apply addRouteFromMethod_extends.
Qed.

Lemma unpack_extends fuel :
  forall Parent inputPath app app',
    unpack ownPropertyNames st fuel Parent inputPath app = Done app' ->
    extends app app'.
Proof.
  induction fuel as [|fuel IH]; intros Parent inputPath app app';
    [discriminate|].
  cbn [unpack].
  destruct (as_part _) as [own|]; [|discriminate].
  simpl typed. cbn [mbind result_bind].
  destruct (addExportedComponents _ _ _ _ _) as [app1| |] eqn:E;
    try discriminate.
  cbn [mbind result_bind].
  destruct (as_array _) as [children|]; [|discriminate].
  simpl typed. cbn [mbind result_bind]. intros Hr.
  eapply extends_trans; [exact (addExportedComponents_extends _ _ _ _ E)|].
  revert Hr. apply forEach_extends. intros Child s s' _. apply IH.
Qed.

End Extends.

(** ** The metadata store *)

Lemma record_set_same (st : Injector.store) t key v scope :
  Injector.record (Injector.set st t key v scope) t scope key = Some v.
Proof.
  unfold Injector.record, Injector.set.
  rewrite lookup_insert_eq. apply lookup_insert_eq.
Qed.

Lemma record_set_other_scope (st : Injector.store) t key v scope t' key' scope' :
  (t, scope) <> (t', scope') ->
  Injector.record (Injector.set st t key v scope) t' scope' key'
  = Injector.record st t' scope' key'.
Proof.
  intros Hne. unfold Injector.record, Injector.set.
  now rewrite lookup_insert_ne.
Qed.

(** ** The sample programs follow the data model *)

Lemma shadow_store_described :
  describes Examples.names Examples.shadow_store "RootModule"
    Examples.shadow_tree.
Proof.
  assert (Hserve : forall C,
             Injector.get_instance Examples.shadow_store
               (Injector.resolve C) "method" (Some VNull) (Some "serve")
             = VStr "get" ->
             Injector.get_instance Examples.shadow_store
               (Injector.resolve C) "path" (Some VNull) (Some "serve")
             = VNull ->
             Forall (describes_method Examples.shadow_store C)
               Examples.serve_get).
  { intros C Hv Hs. constructor; [|constructor]. split; [exact Hv|].
    left. exact Hs. }
  apply describes_unfold. split; [reflexivity|]. split.
  - exists ["First"]. split; [reflexivity|].
    constructor; [|constructor].
    split; [reflexivity|]. split; [reflexivity|].
    apply Hserve; reflexivity.
  - exists ["ChildModule"]. split; [reflexivity|].
    constructor; [|constructor].
    apply describes_unfold. split; [reflexivity|]. split.
    + exists ["Second"]. split; [reflexivity|].
      constructor; [|constructor].
      split; [reflexivity|]. split; [reflexivity|].
      apply Hserve; reflexivity.
    + exists []. split; [reflexivity | constructor].
Qed.

Lemma empty_store_described (Parent : string) :
  describes Examples.names ∅ Parent (Module_descriptor "" [] []).
Proof.
  apply describes_unfold. split; [reflexivity|]. split.
  - exists []. split; [reflexivity | constructor].
  - exists []. split; [reflexivity | constructor].
Qed.

Lemma loop_store_edge :
  imports_edge Examples.loop_store "LoopModule" "LoopModule".
Proof. exists ["LoopModule"]. split; [reflexivity | now left]. Qed.

Lemma loop_store_typed (M : string) :
  rtc (imports_edge Examples.loop_store) "LoopModule" M ->
  module_typed Examples.names Examples.loop_store M.
Proof.
  intros Hr.
  assert (HM : M = "LoopModule").
  { remember "LoopModule" as L eqn:HL.
    induction Hr as [|P Q R HPQ _ IH]; [reflexivity|]. subst P.
    destruct HPQ as (children & Hc & HQ).
    assert (children = ["LoopModule"]) by (vm_compute in Hc; congruence).
    subst children. destruct HQ as [<-|[]]. now apply IH. }
  subst M. split; [vm_compute; discriminate|]. split.
  - exists []. split; [reflexivity|]. intros C m [].
  - vm_compute. discriminate.
Qed.

(** * The claims *)

(** C2.  [getPath] drops the empty, null and undefined entries of its
    argument and joins the remaining segments with a slash, in their
    order: its result is the slash-separated text of the kept segments,
    the kept segments of a concatenation are those of its two halves one
    after the other, and a segment is kept exactly when it occurs as a
    non-empty string.  [getPath(['', 'a', '', 'b'])] is ["a/b"] and
    [getPath([])] is the empty string. *)
Theorem getPath_drops_absent_and_joins :
  (forall parts, getPath parts = String.concat "/" (kept_segments parts))
  /\ (forall before after,
        kept_segments (before ++ after)
        = (kept_segments before ++ kept_segments after)%list)
  /\ (forall parts s,
        In s (kept_segments parts) <-> In (PStr s) parts /\ s <> "")
  /\ getPath [PStr ""; PStr "a"; PStr ""; PStr "b"] = "a/b"
  /\ getPath [] = "".
Proof.
  split; [exact getPath_kept_segments|].
  split.
  { induction before as [|p before IH]; intros after; [reflexivity|].
    destruct p as [s| |]; simpl; try apply IH.
    destruct (String.eqb s ""); simpl; now rewrite IH. }
  split; [|split; reflexivity].
  induction parts as [|p parts IH]; intros s; simpl.
  - tauto.
  - destruct p as [x| |]; simpl.
    + destruct (String.eqb_spec x "") as [->|Hx]; simpl; rewrite IH.
      * split; [tauto|]. intros [[H|H] Hs]; [congruence | tauto].
      * split.
        -- intros [->|[H Hs]]; [split; [now left | exact Hx] | tauto].
        -- intros [[H|H] Hs]; [left; congruence | tauto].
    + rewrite IH. split; [tauto|]. intros [[H|H] Hs]; [discriminate|tauto].
    + rewrite IH. split; [tauto|]. intros [[H|H] Hs]; [discriminate|tauto].
Qed.

(** C5.  The store's [get] resolves, for every target, key, default and
    method scope, to the exact method-scope record when there is one,
    else to the class-scope record of the key, else to the supplied
    default, else to an absent, falsy result.  After recording [v1] at
    class scope and [v2] for method [m], the lookup for [m] gives [v2]
    and the lookup for another method without a record of its own gives
    [v1]; on a store without records the lookup gives the default. *)
Theorem get_resolution_order :
  forall (st : Injector.store) (t key : string) (d : option value) (m : string),
    (forall v, Injector.record st t (Some m) key = Some v ->
               Injector.get st t key d (Some m) = v)
    /\ (forall v, Injector.record st t (Some m) key = None ->
                  Injector.record st t None key = Some v ->
                  Injector.get st t key d (Some m) = v)
    /\ (forall v, Injector.record st t None key = Some v ->
                  Injector.get st t key d None = v)
    /\ (forall dv, Injector.record st t (Some m) key = None ->
                   Injector.record st t None key = None ->
                   Injector.get st t key (Some dv) (Some m) = dv
                   /\ Injector.get st t key (Some dv) None = dv)
    /\ (Injector.record st t (Some m) key = None ->
        Injector.record st t None key = None ->
        Injector.get st t key None (Some m) = VUndefined
        /\ truthy (Injector.get st t key None (Some m)) = false)
    /\ (forall v1 v2 other,
          let st' := Injector.set (Injector.set st t key v1 None) t key v2
                       (Some m) in
          Injector.get st' t key d (Some m) = v2
          /\ (other <> m ->
              Injector.record st t (Some other) key = None ->
              Injector.get st' t key d (Some other) = v1))
    /\ (forall dv other,
          Injector.get ∅ t key (Some dv) None = dv
          /\ Injector.get ∅ t key (Some dv) (Some other) = dv).
Proof.
  intros st t key d m. unfold Injector.get.
  split; [intros v ->; reflexivity|].
  split; [intros v -> ->; reflexivity|].
  split; [intros v ->; reflexivity|].
  split; [intros dv -> ->; split; reflexivity|].
  split; [intros -> ->; split; reflexivity|].
  split.
  - intros v1 v2 other. cbv zeta. split.
    + now rewrite record_set_same.
    + intros Hne Hnone.
      rewrite record_set_other_scope by congruence.
      rewrite record_set_other_scope by congruence.
      rewrite Hnone.
      rewrite record_set_other_scope by congruence.
      now rewrite record_set_same.
  - intros dv other. split; reflexivity.
Qed.

Lemma get_resolution_order_witness :
  Injector.get
    (Injector.set (Injector.set ∅ "Widget" "status" (VStr "v1") None)
       "Widget" "status" (VStr "v2") (Some "m"))
    "Widget" "status" (Some VNull) (Some "other") = VStr "v1"
  /\ Injector.get ∅ "Widget" "status" (Some (VStr "fallback")) (Some "m")
     = VStr "fallback".
Proof.
  destruct (get_resolution_order ∅ "Widget" "status" (Some VNull) "m")
    as (_ & _ & _ & Hd & _ & Hset & _).
  split.
  - apply (Hset (VStr "v1") (VStr "v2") "other"); [discriminate | reflexivity].
  - destruct (get_resolution_order ∅ "Widget" "status"
                (Some (VStr "fallback")) "m") as (_ & _ & _ & Hd' & _).
    apply (Hd' (VStr "fallback")); reflexivity.
Defined.

(** C3.  A component method that carries no method-scope verb record
    gets no route from [addRouteFromMethod], whatever is recorded at
    class scope: the verb is looked up on the instance with the method
    as scope and a null default, the lookup then gives that null, and a
    falsy result makes the method be skipped.  Recording any value under
    the verb key at class scope changes nothing. *)
Theorem addRouteFromMethod_skips_without_verb :
  forall (st : Injector.store) (Component method path : string)
         (app : Application),
    (truthy
       (Injector.get_instance st (Injector.resolve Component) "method"
          (Some VNull) (Some method)) = false ->
     addRouteFromMethod st Component method path app = Done app)
    /\ (Injector.record st Component (Some method) "method" = None ->
        Injector.get_instance st (Injector.resolve Component) "method"
          (Some VNull) (Some method) = VNull
        /\ addRouteFromMethod st Component method path app = Done app
        /\ forall classVerb,
             addRouteFromMethod
               (Injector.set st Component "method" classVerb None)
               Component method path app
             = Done app).
Proof.
  intros st Component method path app.
  assert (Hskip : forall st' : Injector.store,
            truthy
              (Injector.get_instance st' (Injector.resolve Component) "method"
                 (Some VNull) (Some method)) = false ->
            addRouteFromMethod st' Component method path app = Done app).
  { intros st' H. unfold addRouteFromMethod. cbv zeta. now rewrite H. }
  assert (Hnone : forall st' : Injector.store,
            Injector.record st' Component (Some method) "method" = None ->
            Injector.get_instance st' (Injector.resolve Component) "method"
              (Some VNull) (Some method) = VNull).
  { intros st' H. unfold Injector.get_instance. simpl Injector.class_of.
    now rewrite H. }
  split; [apply Hskip|].
  intros Hm. split; [now apply Hnone|]. split.
  - apply Hskip. now rewrite Hnone.
  - intros classVerb. apply Hskip. rewrite Hnone; [reflexivity|].
    rewrite record_set_other_scope by congruence. exact Hm.
Qed.

Lemma addRouteFromMethod_skips_without_verb_witness :
  addRouteFromMethod Examples.class_verb_store "Widget" "plain" "" express
  = Done express
  /\ addRouteFromMethod
       (Injector.set Examples.stuff_store "StuffComponent" "method"
          (VStr "post") None)
       "StuffComponent" "constructor" "root" express
     = Done express.
Proof.
  split.
  - apply (proj2 (addRouteFromMethod_skips_without_verb
                    Examples.class_verb_store "Widget" "plain" "" express)).
    reflexivity.
  - apply (proj2 (addRouteFromMethod_skips_without_verb Examples.stuff_store
                    "StuffComponent" "constructor" "root" express)).
    reflexivity.
Defined.

(** C1.  For a module whose records unfold to a descriptor with path [p],
    exports [ex] and imports [im], and for every inherited prefix,
    [unpack] computes the current path by joining the prefix with [p],
    registers the routes of every exported component at the current path
    first, and then unpacks the imports one after the other in
    declaration order, each with the current path as its inherited
    prefix: the route table grows by the routes of the exports followed
    by the routes of the first import, of the second, and so on. *)
Theorem unpack_exports_then_imports_in_order :
  forall (ownPropertyNames : target -> list string) (st : Injector.store)
         (Parent p : string) (ex : list component_descriptor)
         (im : list module_descriptor) (inputPath : string)
         (app : Application) (fuel : nat),
    describes ownPropertyNames st Parent (Module_descriptor p ex im) ->
    height (Module_descriptor p ex im) <= S fuel ->
    let currentPath := getPath [PStr inputPath; PStr p] in
    let app1 :=
      register_all (List.flat_map (component_routes currentPath) ex) app in
    currentPath = join [inputPath; p]
    /\ (exists components children,
          Forall2 (describes_component ownPropertyNames st) components ex
          /\ Forall2 (describes ownPropertyNames st) children im
          /\ addExportedComponents ownPropertyNames st currentPath
               (VClasses components) app = Done app1
          /\ forEach
               (fun Child app =>
                  unpack ownPropertyNames st fuel Child currentPath app)
               children app1
             = Done (register_all
                       (List.flat_map (module_routes currentPath) im) app1))
    /\ unpack ownPropertyNames st (S fuel) Parent inputPath app
       = Done (register_all
                 (List.flat_map (component_routes currentPath) ex
                    ++ List.flat_map (module_routes currentPath) im)
                 app).
Proof.
  intros names st Parent p ex im inputPath app fuel Hd Hf currentPath app1.
  assert (Hcur : currentPath = join [inputPath; p]).
  { subst currentPath.
    change [PStr inputPath; PStr p] with (List.map PStr [inputPath; p]).
    apply getPath_strings. }
  assert (Hall := unpack_describes names st _ Parent (S fuel) inputPath app
                    Hd Hf).
  cbn [module_routes] in Hall. rewrite <- Hcur in Hall.
  split; [exact Hcur|]. split; [|exact Hall].
  apply describes_unfold in Hd.
  destruct Hd as (Hp & (components & Hex & Hcs) & (children & Him & Hch)).
  exists components, children.
  assert (Hexp := addExportedComponents_describes names st _ _ currentPath app
                    Hcs).
  split; [exact Hcs|]. split; [exact Hch|]. split; [exact Hexp|].
  revert Hall. cbn [unpack]. rewrite Hp, Hex, Him.
  simpl typed. cbn [mbind result_bind].
  fold currentPath. rewrite Hexp. cbn [mbind result_bind].
  fold app1. intros ->. subst app1. now rewrite register_all_app.
Qed.

Lemma unpack_exports_then_imports_in_order_witness :
  unpack Examples.names Examples.shadow_store 2 "RootModule" "" express
  = Done (register_all
            [Examples.route_of "get" "/x" "First" "serve";
             Examples.route_of "get" "/x" "Second" "serve"]
            express).
Proof.
  apply (unpack_exports_then_imports_in_order Examples.names
           Examples.shadow_store "RootModule" "x"
           [ {| cd_class := "First"; cd_methods := Examples.serve_get |} ]
           [ Module_descriptor ""
               [ {| cd_class := "Second"; cd_methods := Examples.serve_get |} ]
               [] ]
           "" express 1).
  - exact shadow_store_described.
  - simpl. lia.
Defined.

(** C6.  The full path registered for an eligible method is a slash
    followed by the slash-joined non-empty path segments from the root
    module down to the method's sub-path, in root-to-leaf order: the
    walk of a module tree from the root registers exactly the routes
    whose paths are computed at once from all these segments, also under
    an inherited prefix, which then is the first segment.  A method with
    verb [get] and sub-path [stuff] exported from a module with path
    [root] compiles to [get /root/stuff]. *)
Theorem full_path_joins_segments_root_to_leaf :
  (forall (ownPropertyNames : target -> list string) (st : Injector.store)
          (root : string) (d : module_descriptor) (fuel : nat)
          (app : Application),
      describes ownPropertyNames st root d ->
      height d <= fuel ->
      unpack ownPropertyNames st fuel root "" app
      = Done (register_all (flat_routes [] d) app)
      /\ forall inputPath,
          unpack ownPropertyNames st fuel root inputPath app
          = Done (register_all (flat_routes [inputPath] d) app))
  /\ unpack Examples.names Examples.stuff_store 1 "AppModule" "" express
     = Done (register_all
               [Examples.route_of "get" "/root/stuff" "StuffComponent"
                  "getStuff"]
               express).
Proof.
  split; [|reflexivity].
  intros names st root d fuel app Hd Hf. split.
  - rewrite (unpack_describes names st d root fuel "" app Hd Hf).
    change "" with (join []) at 1. now rewrite module_routes_flat.
  - intros inputPath.
    rewrite (unpack_describes names st d root fuel inputPath app Hd Hf).
    rewrite <- module_routes_flat.
    replace (join [inputPath]) with inputPath; [reflexivity|].
    unfold join, present_segments. simpl.
    destruct (String.eqb_spec inputPath ""); simpl; congruence.
Qed.

Lemma full_path_joins_segments_root_to_leaf_witness :
  unpack Examples.names Examples.shadow_store 2 "RootModule" "api" express
  = Done (register_all
            [Examples.route_of "get" "/api/x" "First" "serve";
             Examples.route_of "get" "/api/x" "Second" "serve"]
            express).
Proof.
  apply (proj2 (proj1 full_path_joins_segments_root_to_leaf Examples.names
                  Examples.shadow_store "RootModule" Examples.shadow_tree 2
                  express shadow_store_described
                  (le_n 2))
           "api").
Defined.

(** C7.  [unpack] detects no cycle.  When the imports of the root unfold
    to a finite module tree the walk returns, within a recursion depth
    equal to the height of the tree; for a module with path [""], no
    exports and no imports it returns with the route table unchanged.
    When a cycle of imports can be reached from the root the walk never
    returns, whatever the depth allowed; with metadata of the declared
    types at every module reachable from the root it recurses beyond
    every depth. *)
Theorem unpack_terminates_on_trees_only :
  forall (ownPropertyNames : target -> list string) (st : Injector.store)
         (root : string),
    (forall d fuel inputPath app,
        describes ownPropertyNames st root d ->
        height d <= fuel ->
        exists app',
          unpack ownPropertyNames st fuel root inputPath app = Done app')
    /\ (forall fuel inputPath app,
          describes ownPropertyNames st root (Module_descriptor "" [] []) ->
          1 <= fuel ->
          unpack ownPropertyNames st fuel root inputPath app = Done app)
    /\ (forall N,
          rtc (imports_edge st) root N ->
          tc (imports_edge st) N N ->
          (forall fuel inputPath app app',
              unpack ownPropertyNames st fuel root inputPath app
              <> Done app')
          /\ ((forall M, rtc (imports_edge st) root M ->
                         module_typed ownPropertyNames st M) ->
              forall fuel inputPath app,
                unpack ownPropertyNames st fuel root inputPath app
                = OutOfFuel)).
Proof.
  intros names st root. split; [|split].
  - intros d fuel inputPath app Hd Hf.
    rewrite (unpack_describes names st d root fuel inputPath app Hd Hf).
    eauto.
  - intros fuel inputPath app Hd Hf.
    rewrite (unpack_describes names st _ root fuel inputPath app Hd Hf).
    simpl. now rewrite register_all_nil.
  - intros N Hreach Hcycle. split.
    + intros fuel inputPath app app' Hr.
      destruct (completes_rtc names st root N Hreach fuel)
        as (fuel' & _ & Hc).
      { now exists inputPath, app, app'. }
      exact (cycle_never_completes names st N Hcycle fuel' Hc).
    + intros Hty fuel inputPath app.
      apply unpack_reaches_cycle; [exact Hty|].
      exists N. split; assumption.
Qed.

Lemma unpack_terminates_on_trees_only_witness :
  (exists app',
      unpack Examples.names Examples.shadow_store 2 "RootModule" "" express
      = Done app')
  /\ unpack Examples.names ∅ 1 "EmptyModule" "" express = Done express
  /\ unpack Examples.names Examples.loop_store 1000 "LoopModule" "" express
     = OutOfFuel.
Proof.
  split; [|split].
  - apply (proj1 (unpack_terminates_on_trees_only Examples.names
                    Examples.shadow_store "RootModule")
             Examples.shadow_tree 2 "" express shadow_store_described
             (le_n 2)).
  - apply (proj1 (proj2 (unpack_terminates_on_trees_only Examples.names ∅
                           "EmptyModule"))
             1 "" express (empty_store_described "EmptyModule") (le_n 1)).
  - apply (proj2 (proj2 (proj2 (unpack_terminates_on_trees_only Examples.names
                                  Examples.loop_store "LoopModule"))
                    "LoopModule" (rtc_refl _ _)
                    (tc_once _ _ _ loop_store_edge))
             loop_store_typed 1000 "" express).
Defined.

(** C8.  The handler [getHandler] produces for a component instance and
    a method name, invoked with a request and a raw response, looks up
    all the metadata recorded for that method with the store's bulk
    lookup, wraps the raw response with that metadata into a decorated
    response, and calls the method of the instance with the request and
    the decorated response; what the method replies or raises is what
    the handler replies or raises, unchanged.  The bulk lookup holds
    exactly the method-scope records of that method. *)
Theorem handler_decorates_then_delegates :
  forall (Request RawResponse Reply Failure : Type) (st : Injector.store)
         (method_body :
            Injector.instance -> string -> Request ->
            HttpResponse RawResponse -> Failure + Reply)
         (aComponent : Injector.instance) (name : string)
         (req : Request) (res : RawResponse),
    let meta := Injector.getAll st (Injector.class_of aComponent) name in
    let decorated := new_HttpResponse res meta in
    invoke st method_body (getHandler aComponent name) req res
    = method_body aComponent name req decorated
    /\ response decorated = res
    /\ (forall key,
          meta !! key
          = Injector.record st (Injector.class_of aComponent) (Some name) key)
    /\ match method_body aComponent name req decorated with
       | inl failure =>
           invoke st method_body (getHandler aComponent name) req res
           = inl failure
       | inr reply =>
           invoke st method_body (getHandler aComponent name) req res
           = inr reply
       end.
Proof.
  intros Request RawResponse Reply Failure st body aComponent name req res
         meta decorated.
  split; [reflexivity|]. split; [reflexivity|]. split.
  - intros key. subst meta. unfold Injector.getAll, Injector.record.
    destruct (st !! (Injector.class_of aComponent, Some name)); reflexivity.
  - unfold invoke. simpl. fold meta. fold decorated.
    destruct (body aComponent name req decorated); reflexivity.
Qed.

(** C9.  Two bootstrap runs that start from a fresh application with the
    same classes, the same metadata and the same root module end with
    the same route table, the same registrations in the same order,
    whatever the port argument, the port of the process environment and
    the recursion depth each run was allowed. *)
Theorem bootstrap_route_table_deterministic :
  forall (ownPropertyNames : target -> list string) (st : Injector.store)
         (root : string) (fuel1 fuel2 : nat) (port1 port2 : option port)
         (env1 env2 : option string) (app1 app2 : Application),
    bootstrap ownPropertyNames st fuel1 root port1 env1 express = Done app1 ->
    bootstrap ownPropertyNames st fuel2 root port2 env2 express = Done app2 ->
    routes app1 = routes app2.
Proof.
  intros names st root fuel1 fuel2 port1 port2 env1 env2 app1 app2.
  unfold bootstrap.
  destruct (unpack names st fuel1 root "" (addParser express))
    as [a1| |] eqn:E1; try discriminate.
  destruct (unpack names st fuel2 root "" (addParser express))
    as [a2| |] eqn:E2; try discriminate.
  cbn [mbind result_bind]. intros H1 H2.
  inversion H1; subst. inversion H2; subst. simpl.
  apply (unpack_fuel_le names st fuel1 (Nat.max fuel1 fuel2)) in E1;
    [|lia|discriminate].
  apply (unpack_fuel_le names st fuel2 (Nat.max fuel1 fuel2)) in E2;
    [|lia|discriminate].
  congruence.
Qed.

Lemma bootstrap_route_table_deterministic_witness :
  routes
    (listen (PortString "8080")
       (register_all
          [Examples.route_of "get" "/root/stuff" "StuffComponent" "getStuff"]
          (addParser express)))
  = routes
      (listen (PortNumber 3000)
         (register_all
            [Examples.route_of "get" "/root/stuff" "StuffComponent" "getStuff"]
            (addParser express))).
Proof.
  apply (bootstrap_route_table_deterministic Examples.names
           Examples.stuff_store "AppModule" 1 7 (Some (PortNumber 80)) None
           (Some "8080") None);
    reflexivity.
Defined.

(** C10.  Every registration hands the server facade a path that starts
    with a slash: [addRoute] registers the slash followed by the joined
    path, every route a completed walk adds has such a path, and an
    eligible method whose incoming path segments and sub-path are all
    empty or absent is registered at exactly ["/"]. *)
Theorem registered_paths_start_with_slash :
  (forall verb path aComponent name app,
      routes (addRoute verb path aComponent name app)
      = (routes app
           ++ [ {| r_method := verb; r_path := "/" ++ path;
                   r_handler := getHandler aComponent name |} ])%list)
  /\ (forall (ownPropertyNames : target -> list string) (st : Injector.store)
            (fuel : nat) (Parent inputPath : string) (app app' : Application),
        unpack ownPropertyNames st fuel Parent inputPath app = Done app' ->
        exists added,
          routes app' = (routes app ++ added)%list
          /\ Forall leading_slash added)
  /\ (forall parts,
        Forall (fun p => part_truthy p = false) parts ->
        getPath parts = "")
  /\ (forall (st : Injector.store) (Component method verb : string)
            (sub : part) (app : Application),
        Injector.get_instance st (Injector.resolve Component) "method"
          (Some VNull) (Some method)
        = VStr verb ->
        verb <> "" ->
        as_part
          (Injector.get_instance st (Injector.resolve Component) "path"
             (Some VNull) (Some method))
        = Some sub ->
        part_truthy sub = false ->
        addRouteFromMethod st Component method "" app
        = Done (register
                  {| r_method := verb; r_path := "/";
                     r_handler := getHandler (Injector.resolve Component)
                                    method |}
                  app)).
Proof.
  split; [reflexivity|]. split; [|split].
  - intros names st fuel Parent inputPath app app' Hr.
    destruct (unpack_extends names st fuel Parent inputPath app app' Hr)
      as (added & -> & Hs).
    exists added. split; [reflexivity | exact Hs].
  - intros parts H. unfold getPath, Array_join.
    replace (List.filter part_truthy parts) with (@nil part); [reflexivity|].
    induction H as [|p parts Hp _ IH]; [reflexivity|].
    simpl. now rewrite Hp.
  - intros st Component method verb sub app Hv Hne Hs Hsub.
    unfold addRouteFromMethod. cbv zeta.
    rewrite Hv, Hs. simpl truthy.
    destruct (String.eqb_spec verb "") as [|_]; [contradiction|].
    simpl negb. cbv iota. simpl typed. cbn [mbind result_bind].
    unfold addRoute. do 3 f_equal.
    unfold getPath. simpl. now rewrite Hsub.
Qed.

Lemma registered_paths_start_with_slash_witness :
  (exists added,
      routes
        (register_all
           [Examples.route_of "get" "/root/stuff" "StuffComponent" "getStuff"]
           express)
      = (routes express ++ added)%list
      /\ Forall leading_slash added)
  /\ addRouteFromMethod Examples.shadow_store "Second" "serve" "" express
     = Done (register (Examples.route_of "get" "/" "Second" "serve") express).
Proof.
  split.
  - apply (proj1 (proj2 registered_paths_start_with_slash) Examples.names
             Examples.stuff_store 1 "AppModule" "" express).
    reflexivity.
  - apply (proj2 (proj2 (proj2 registered_paths_start_with_slash))
             Examples.shadow_store "Second" "serve" "get" PNull express);
      [reflexivity | discriminate | reflexivity | reflexivity].
Defined.

(** * Further properties of the compiler *)

(** ** More on path joining *)

Lemma append_nil_r (s : string) : s ++ "" = s.
Proof.
  induction s as [|c s IH]; [reflexivity|].
  change (String c (s ++ "") = String c s). now rewrite IH.
Qed.

Lemma kept_segments_nonempty (parts : list part) :
  Forall (fun s => s <> "") (kept_segments parts).
Proof.
  induction parts as [|p parts IH]; [constructor|].
  destruct p as [s| |]; simpl; try exact IH.
  destruct (String.eqb_spec s ""); [exact IH | now constructor].
Qed.

Lemma kept_segments_nil (parts : list part) :
  kept_segments parts = [] <-> Forall (fun p => part_truthy p = false) parts.
Proof.
  induction parts as [|p parts IH]; [split; constructor|].
  destruct p as [s| |]; simpl.
  - destruct (String.eqb s "") eqn:E.
    + rewrite IH. split; intros H.
      * constructor; [simpl; now rewrite E | exact H].
      * now inversion H.
    + split; [discriminate|]. intros H. inversion H as [|? ? Hs _]; subst.
      simpl in Hs. rewrite E in Hs. discriminate.
  - rewrite IH. split; intros H; [now constructor | now inversion H].
  - rewrite IH. split; intros H; [now constructor | now inversion H].
Qed.

Lemma kept_segments_app (before after : list part) :
  kept_segments (before ++ after)
  = (kept_segments before ++ kept_segments after)%list.
Proof.
  induction before as [|p before IH]; [reflexivity|].
  destruct p as [s| |]; simpl; try apply IH.
  destruct (String.eqb s ""); simpl; now rewrite IH.
Qed.

Lemma kept_segments_single (s : string) :
  kept_segments [PStr s] = if String.eqb s "" then [] else [s].
Proof. simpl. destruct (String.eqb s ""); reflexivity. Qed.

Lemma getPath_prefix (p : string) (x : part) :
  exists rest, getPath [PStr p; x] = p ++ rest.
Proof.
  rewrite getPath_kept_segments.
  change [PStr p; x] with ([PStr p] ++ [x])%list.
  rewrite kept_segments_app, kept_segments_single.
  destruct (String.eqb_spec p "") as [->|Hp].
  - eexists. reflexivity.
  - destruct (kept_segments [x]) as [|y l] eqn:E.
    + exists "". simpl. now rewrite append_nil_r.
    + exists ("/" ++ String.concat "/" (y :: l)). reflexivity.
Qed.

Lemma getPath_empty_iff_kept (parts : list part) :
  getPath parts = "" <-> kept_segments parts = [].
Proof.
  rewrite getPath_kept_segments. split; [|now intros ->].
  apply concat_empty_iff, kept_segments_nonempty.
Qed.

(** X1.  [getPath] returns the empty string exactly when every
    entry of its argument is empty, null or undefined. *)
Theorem getPath_empty_iff_all_absent :
  forall parts,
    getPath parts = "" <-> Forall (fun p => part_truthy p = false) parts.
Proof.
  intros parts. rewrite getPath_empty_iff_kept. apply kept_segments_nil.
Qed.

(** X2.  Joining in two stages is joining at once: the path of a
    concatenation is the path of the two joined halves, and joining a
    result of [getPath] alone gives it back. *)
Theorem getPath_joins_in_stages :
  forall before after,
    getPath (before ++ after)
    = getPath [PStr (getPath before); PStr (getPath after)]
    /\ getPath [PStr (getPath before)] = getPath before.
Proof.
  assert (Hone : forall l,
             kept_segments [PStr (getPath l)]
             = match kept_segments l with
               | [] => []
               | _ => [getPath l]
               end).
  { intros l. rewrite kept_segments_single.
    destruct (String.eqb_spec (getPath l) "") as [He|He].
    - apply getPath_empty_iff_kept in He. now rewrite He.
    - destruct (kept_segments l) eqn:E; [|reflexivity].
      exfalso. apply He. rewrite getPath_kept_segments. now rewrite E. }
  intros before after. split.
  - rewrite (getPath_kept_segments (before ++ after)), kept_segments_app.
    rewrite (getPath_kept_segments [_; _]).
    change [PStr (getPath before); PStr (getPath after)]
      with ([PStr (getPath before)] ++ [PStr (getPath after)])%list.
    rewrite kept_segments_app, !Hone.
    rewrite (getPath_kept_segments before), (getPath_kept_segments after).
    destruct (kept_segments before) as [|b bs] eqn:Eb.
    + destruct (kept_segments after); reflexivity.
    + destruct (kept_segments after) as [|a l] eqn:Ea.
      * now rewrite List.app_nil_r.
      * rewrite concat_app_nonempty by discriminate. reflexivity.
  - rewrite (getPath_kept_segments [_]), Hone.
    rewrite (getPath_kept_segments before).
    destruct (kept_segments before); reflexivity.
Qed.

(** ** Steps that do not look at the application *)

Section Frames.

Variable ownPropertyNames : target -> list string.
Variable st : Injector.store.

Lemma framed_bind (f g : Application -> result Application) :
  framed f -> framed g -> framed (fun app => app1 ← f app; g app1).
Proof.
  intros [(r1 & Hf) | [Hf | Hf]] Hg.
  - destruct Hg as [(r2 & Hg) | [Hg | Hg]].
    + left. exists (r1 ++ r2)%list. intros app.
      rewrite Hf. cbn [mbind result_bind]. now rewrite Hg, register_all_app.
    + right; left. intros app. rewrite Hf. cbn [mbind result_bind]. apply Hg.
    + right; right. intros app. rewrite Hf. cbn [mbind result_bind].
      apply Hg.
  - right; left. intros app. now rewrite Hf.
  - right; right. intros app. now rewrite Hf.
Qed.

Lemma framed_forEach {A : Type} (f : A -> Application -> result Application)
    (l : list A) :
  (forall x, In x l -> framed (f x)) -> framed (forEach f l).
Proof.
  induction l as [|x l IH]; intros Hf.
  - left. exists []. intros app. simpl. now rewrite register_all_nil.
  - apply (framed_bind (f x) (forEach f l)).
    + apply Hf. now left.
    + apply IH. intros y Hy. apply Hf. now right.
Qed.

Lemma framed_addRouteFromMethod Component method path :
  framed (addRouteFromMethod st Component method path).
Proof.
  destruct (addRouteFromMethod_shape st Component method)
    as [H | [H | (verb & sub & _ & _ & _ & H)]].
  - right; left. intros app. apply H.
  - left. exists []. intros app. now rewrite H, register_all_nil.
  - left. eexists [_]. intros app. rewrite H. reflexivity.
Qed.

Lemma framed_addExportedComponents path includes :
  framed (addExportedComponents ownPropertyNames st path includes).
Proof.
  unfold addExportedComponents.
  destruct (as_array includes) as [components|]; simpl typed.
  - apply framed_forEach. intros Component _.
    apply framed_forEach. intros method _.
    apply framed_addRouteFromMethod.
  - right; left. reflexivity.
Qed.

Lemma framed_unpack fuel :
  forall Parent inputPath,
    framed (unpack ownPropertyNames st fuel Parent inputPath).
Proof.
  induction fuel as [|fuel IH]; intros Parent inputPath.
  - right; right. reflexivity.
  - cbn [unpack].
    destruct (as_part _) as [own|]; simpl typed;
      [|right; left; reflexivity].
    cbn [mbind result_bind].
    apply (framed_bind
             (addExportedComponents ownPropertyNames st
                (getPath [PStr inputPath; own])
                (Injector.get st Parent "exports" (Some (VClasses [])) None))).
    + apply framed_addExportedComponents.
    + destruct (as_array _) as [children|]; simpl typed;
        [|right; left; reflexivity].
      apply (framed_forEach
               (fun Child app =>
                  unpack ownPropertyNames st fuel Child
                    (getPath [PStr inputPath; own]) app)).
      intros Child _. apply IH.
Qed.

End Frames.

(** X3.  What [unpack] does is independent of the application it is
    given: for a module, a prefix and a recursion depth it either
    appends one fixed list of registrations to any application, leaving
    the earlier registrations, the middleware and the listening port as
    they were, or it fails on every application. *)
Theorem unpack_ignores_registered_routes :
  forall (ownPropertyNames : target -> list string) (st : Injector.store)
         (fuel : nat) (Parent inputPath : string),
    (exists added,
        forall app,
          unpack ownPropertyNames st fuel Parent inputPath app
          = Done {| middleware := middleware app;
                    routes := routes app ++ added;
                    listening := listening app |})
    \/ (forall app,
          unpack ownPropertyNames st fuel Parent inputPath app = IllTyped)
    \/ (forall app,
          unpack ownPropertyNames st fuel Parent inputPath app = OutOfFuel).
Proof.
  intros names st fuel Parent inputPath.
  exact (framed_unpack names st fuel Parent inputPath).
Qed.

(** ** Bootstrap *)

Section Bootstrap.

Variable ownPropertyNames : target -> list string.
Variable st : Injector.store.

Lemma bootstrap_port port_arg env_port :
  match env_port with
  | Some s =>
      if String.eqb s ""
      then match port_arg with Some p => p | None => PortNumber 3000 end
      else PortString s
  | None => match port_arg with Some p => p | None => PortNumber 3000 end
  end = effective_port port_arg env_port.
Proof. destruct env_port as [[|c s]|]; reflexivity. Qed.

Lemma bootstrap_unfold fuel root port_arg env_port app :
  bootstrap ownPropertyNames st fuel root port_arg env_port app
  = (a ← unpack ownPropertyNames st fuel root "" (addParser app);
     Done (listen (effective_port port_arg env_port) a)).
Proof. unfold bootstrap. now rewrite bootstrap_port. Qed.

(** The registrations a walk appends are the same at every depth that
    lets it return. *)
Lemma unpack_added_unique fuel1 fuel2 Parent inputPath added1 added2 :
  (forall app,
      unpack ownPropertyNames st fuel1 Parent inputPath app
      = Done (register_all added1 app)) ->
  (forall app,
      unpack ownPropertyNames st fuel2 Parent inputPath app
      = Done (register_all added2 app)) ->
  added1 = added2.
Proof.
  intros H1 H2.
  assert (E1 := unpack_fuel_le ownPropertyNames st fuel1 (Nat.max fuel1 fuel2)
                  Parent inputPath express _ (Nat.le_max_l _ _) (H1 express)).
  assert (E2 := unpack_fuel_le ownPropertyNames st fuel2 (Nat.max fuel1 fuel2)
                  Parent inputPath express _ (Nat.le_max_r _ _) (H2 express)).
  rewrite E1 in E2 by discriminate.
  assert (E : Done (register_all added1 express)
              = Done (register_all added2 express))
    by (apply E2; discriminate).
  now inversion E.
Qed.

End Bootstrap.

(** X4.  A bootstrap that returns has added the two body parsers,
    url-encoded first and JSON second, after the middleware already
    there, has kept the earlier registrations in front of the new ones,
    which are those the walk of the root module under the empty prefix
    makes, and listens on the port of the process environment when that
    is a non-empty string, else on the port argument, else on 3000. *)
Theorem bootstrap_parsers_routes_port :
  forall (ownPropertyNames : target -> list string) (st : Injector.store)
         (fuel : nat) (root : string) (port_arg : option port)
         (env_port : option string) (app app' : Application),
    bootstrap ownPropertyNames st fuel root port_arg env_port app
    = Done app' ->
    middleware app' = (middleware app ++ ["urlencoded"; "json"])%list
    /\ (exists added,
          routes app' = (routes app ++ added)%list
          /\ unpack ownPropertyNames st fuel root "" express
             = Done (register_all added express))
    /\ listening app' = Some (effective_port port_arg env_port).
Proof.
  intros names st fuel root port_arg env_port app app'.
  rewrite bootstrap_unfold.
  destruct (framed_unpack names st fuel root "") as [(added & H) | [H | H]];
    rewrite H; cbn [mbind result_bind]; try discriminate.
  intros E. inversion E; subst. simpl.
  split; [now rewrite <- List.app_assoc|]. split; [|reflexivity].
  exists added. split; [reflexivity | apply H].
Qed.

Lemma bootstrap_parsers_routes_port_witness :
  listening
    (App ["urlencoded"; "json"]
       [Examples.route_of "get" "/root/stuff" "StuffComponent" "getStuff"]
       (Some (PortNumber 4000)))
  = Some (effective_port (Some (PortNumber 4000)) (Some "")).
Proof.
  apply (bootstrap_parsers_routes_port Examples.names Examples.stuff_store 1
           "AppModule" (Some (PortNumber 4000)) (Some "") express).
  reflexivity.
Defined.

(** X5.  Bootstrapping twice on one application, as two calls on the
    exported compiler do, registers every route a second time after the
    first ones and adds the body parsers again; the port of the second
    call is the one kept. *)
Theorem bootstrap_twice_registers_twice :
  forall (ownPropertyNames : target -> list string) (st : Injector.store)
         (root : string) (fuel1 fuel2 : nat) (port1 port2 : option port)
         (env1 env2 : option string) (app0 app1 app2 : Application),
    bootstrap ownPropertyNames st fuel1 root port1 env1 app0 = Done app1 ->
    bootstrap ownPropertyNames st fuel2 root port2 env2 app1 = Done app2 ->
    exists added,
      routes app1 = (routes app0 ++ added)%list
      /\ routes app2 = (routes app0 ++ added ++ added)%list
      /\ middleware app2
         = (middleware app0
              ++ ["urlencoded"; "json"; "urlencoded"; "json"])%list
      /\ listening app2 = Some (effective_port port2 env2).
Proof.
  intros names st root fuel1 fuel2 port1 port2 env1 env2 app0 app1 app2.
  rewrite !bootstrap_unfold.
  destruct (framed_unpack names st fuel1 root "") as [(r1 & H1) | [H | H]];
    [|rewrite H; discriminate|rewrite H; discriminate].
  destruct (framed_unpack names st fuel2 root "") as [(r2 & H2) | [H | H]];
    [|rewrite H; intros _; discriminate|rewrite H; intros _; discriminate].
  rewrite H1, H2. cbn [mbind result_bind]. intros E1 E2.
  assert (r1 = r2) by exact (unpack_added_unique names st _ _ _ _ _ _ H1 H2).
  subst r2. inversion E1; subst. inversion E2; subst. simpl.
  exists r1. repeat split.
  - now rewrite <- !List.app_assoc.
  - now rewrite <- !List.app_assoc.
Qed.

Lemma bootstrap_twice_registers_twice_witness :
  exists added,
    routes
      (App ["urlencoded"; "json"]
         [Examples.route_of "get" "/root/stuff" "StuffComponent" "getStuff"]
         (Some (PortNumber 3000)))
    = (routes express ++ added)%list
    /\ routes
         (App ["urlencoded"; "json"; "urlencoded"; "json"]
            [Examples.route_of "get" "/root/stuff" "StuffComponent" "getStuff";
             Examples.route_of "get" "/root/stuff" "StuffComponent" "getStuff"]
            (Some (PortString "80")))
       = (routes express ++ added ++ added)%list
    /\ middleware
         (App ["urlencoded"; "json"; "urlencoded"; "json"]
            [Examples.route_of "get" "/root/stuff" "StuffComponent" "getStuff";
             Examples.route_of "get" "/root/stuff" "StuffComponent" "getStuff"]
            (Some (PortString "80")))
       = (middleware express
            ++ ["urlencoded"; "json"; "urlencoded"; "json"])%list
    /\ listening
         (App ["urlencoded"; "json"; "urlencoded"; "json"]
            [Examples.route_of "get" "/root/stuff" "StuffComponent" "getStuff";
             Examples.route_of "get" "/root/stuff" "StuffComponent" "getStuff"]
            (Some (PortString "80")))
       = Some (effective_port None (Some "80")).
Proof.
  apply (bootstrap_twice_registers_twice Examples.names Examples.stuff_store
           "AppModule" 1 4 None None None (Some "80") express);
    reflexivity.
Defined.

(** ** Where the registered routes come from *)

Section RouteProvenance.

Variable ownPropertyNames : target -> list string.
Variable st : Injector.store.

Lemma adds_refl Q app : adds Q app app.
Proof. exists []. split; [now rewrite register_all_nil | constructor]. Qed.

Lemma adds_trans Q a b c : adds Q a b -> adds Q b c -> adds Q a c.
Proof.
  intros (r1 & -> & H1) (r2 & -> & H2). exists (r1 ++ r2)%list.
  split; [apply register_all_app | now apply List.Forall_app].
Qed.

Lemma adds_weaken (Q Q' : route -> Prop) a b :
  (forall r, Q r -> Q' r) -> adds Q a b -> adds Q' a b.
Proof.
  intros HQ (rs & -> & H). exists rs. split; [reflexivity|].
  revert H. apply List.Forall_impl. exact HQ.
Qed.

Lemma forEach_adds {A : Type} Q (f : A -> Application -> result Application)
    (l : list A) :
  (forall x s s', In x l -> f x s = Done s' -> adds Q s s') ->
  forall s s', forEach f l s = Done s' -> adds Q s s'.
Proof.
  intros Hf s s' Hr.
  apply (forEach_preserves (adds Q s) f l) with (s := s) (s' := s');
    [|exact Hr | apply adds_refl].
  intros x t t' Hx Ht Hst. eapply adds_trans; [exact Hst|].
  now apply (Hf x t t').
Qed.

Abbreviation sound := (registered_below ownPropertyNames st).

Lemma under_prefix_shorter inputPath own r :
  under_prefix (getPath [PStr inputPath; own]) r -> under_prefix inputPath r.
Proof.
  intros (rest & Hr). destruct (getPath_prefix inputPath own) as (more & Hm).
  exists (more ++ rest). rewrite Hr, Hm. now rewrite append_assoc.
Qed.

Lemma addRouteFromMethod_sound Component method path app app' :
  In method (getMethodList ownPropertyNames Component) ->
  addRouteFromMethod st Component method path app = Done app' ->
  adds (sound path) app app'.
Proof.
  intros Hm.
  destruct (addRouteFromMethod_shape st Component method)
    as [H | [H | (verb & sub & Hne & Hv & _ & H)]]; rewrite H; intros E;
    inversion E; subst.
  - apply adds_refl.
  - eexists [_]. split; [reflexivity|]. constructor; [|constructor].
    unfold getMethodList in Hm. apply List.filter_In in Hm.
    destruct Hm as [Hin Hc]. split.
    + repeat split; simpl; auto.
      intros ->. discriminate.
    + destruct (getPath_prefix path sub) as (rest & Hr).
      exists rest. simpl. now rewrite Hr.
Qed.

Lemma addExportedComponents_sound path includes app app' :
  addExportedComponents ownPropertyNames st path includes app = Done app' ->
  adds (sound path) app app'.
Proof.
  unfold addExportedComponents.
  destruct (as_array includes) as [components|]; [|discriminate].
  simpl typed. cbn [mbind result_bind].
  apply forEach_adds. intros Component s s' _.
  apply forEach_adds. intros method t t' Hm.
  now apply addRouteFromMethod_sound.
Qed.

Lemma unpack_sound fuel :
  forall Parent inputPath app app',
    unpack ownPropertyNames st fuel Parent inputPath app = Done app' ->
    adds (sound inputPath) app app'.
Proof.
  induction fuel as [|fuel IH]; intros Parent inputPath app app';
    [discriminate|].
  cbn [unpack].
  destruct (as_part _) as [own|]; [|discriminate].
  simpl typed. cbn [mbind result_bind].
  destruct (addExportedComponents _ _ _ _ _) as [app1| |] eqn:E;
    try discriminate.
  cbn [mbind result_bind].
  destruct (as_array _) as [children|]; [|discriminate].
  simpl typed. cbn [mbind result_bind]. intros Hr.
  apply (adds_weaken (sound (getPath [PStr inputPath; own]))).
  { intros r [Hm Hp]. split; [exact Hm|].
    now apply (under_prefix_shorter inputPath own). }
  eapply adds_trans; [exact (addExportedComponents_sound _ _ _ _ E)|].
  revert Hr. apply forEach_adds. intros Child s s' _. apply IH.
Qed.

End RouteProvenance.

(** X6.  Every route a completed walk registers comes from the metadata
    of a method: its handler names a property of the prototype of its
    component class that is not the constructor, and its verb is the
    non-empty string the store resolves for that method under the key
    [method]. *)
Theorem unpack_registers_only_mapped_methods :
  forall (ownPropertyNames : target -> list string) (st : Injector.store)
         (fuel : nat) (Parent inputPath : string) (app app' : Application),
    unpack ownPropertyNames st fuel Parent inputPath app = Done app' ->
    exists added,
      routes app' = (routes app ++ added)%list
      /\ Forall (from_metadata ownPropertyNames st) added.
Proof.
  intros names st fuel Parent inputPath app app' Hr.
  destruct (unpack_sound names st fuel Parent inputPath app app' Hr)
    as (added & -> & Hs).
  exists added. split; [reflexivity|].
  revert Hs. apply List.Forall_impl. now intros r [Hm _].
Qed.

Lemma unpack_registers_only_mapped_methods_witness :
  exists added,
    routes
      (register_all
         [Examples.route_of "get" "/x" "First" "serve";
          Examples.route_of "get" "/x" "Second" "serve"]
         express)
    = (routes express ++ added)%list
    /\ Forall (from_metadata Examples.names Examples.shadow_store) added.
Proof.
  apply (unpack_registers_only_mapped_methods Examples.names
           Examples.shadow_store 2 "RootModule" "" express).
  reflexivity.
Defined.

(** X7.  Every route a completed walk registers lies below the prefix
    the walk was given: its path is a slash, then the inherited prefix,
    then what the modules and the method add. *)
Theorem unpack_registers_under_prefix :
  forall (ownPropertyNames : target -> list string) (st : Injector.store)
         (fuel : nat) (Parent inputPath : string) (app app' : Application),
    unpack ownPropertyNames st fuel Parent inputPath app = Done app' ->
    exists added,
      routes app' = (routes app ++ added)%list
      /\ Forall (under_prefix inputPath) added.
Proof.
  intros names st fuel Parent inputPath app app' Hr.
  destruct (unpack_sound names st fuel Parent inputPath app app' Hr)
    as (added & -> & Hs).
  exists added. split; [reflexivity|].
  revert Hs. apply List.Forall_impl. now intros r [_ Hp].
Qed.

Lemma unpack_registers_under_prefix_witness :
  exists added,
    routes
      (register_all
         [Examples.route_of "get" "/api/x" "First" "serve";
          Examples.route_of "get" "/api/x" "Second" "serve"]
         express)
    = (routes express ++ added)%list
    /\ Forall (under_prefix "api") added.
Proof.
  apply (unpack_registers_under_prefix Examples.names Examples.shadow_store 2
           "RootModule" "api" express).
  reflexivity.
Defined.

(** ** Exported components *)

Section Exports.

Variable ownPropertyNames : target -> list string.
Variable st : Injector.store.

Lemma addRouteFromMethod_by_verb Component method path app app' :
  addRouteFromMethod st Component method path app = Done app' ->
  exists rs,
    app' = register_all rs app
    /\ List.map r_handler rs
       = List.map handler_of
           (List.filter (has_verb st) [(Component, method)]).
Proof.
  unfold addRouteFromMethod, has_verb. cbv zeta. simpl.
  destruct (Injector.get_instance st (Injector.resolve Component) "method"
              (Some VNull) (Some method))
    as [| |verb|l]; simpl truthy; cbv iota.
  - intros E. inversion E; subst. exists []. now rewrite register_all_nil.
  - intros E. inversion E; subst. exists []. now rewrite register_all_nil.
  - destruct (negb (String.eqb verb "")).
    + destruct (as_part _) as [sub|]; simpl typed; cbn [mbind result_bind];
        [|discriminate].
      intros E. inversion E; subst. eexists [_]. split; reflexivity.
    + intros E. inversion E; subst. exists []. now rewrite register_all_nil.
  - destruct (as_part _) as [sub|]; discriminate.
Qed.

Lemma methods_by_verb Component path ms :
  forall app app',
    forEach (fun method app => addRouteFromMethod st Component method path app)
      ms app = Done app' ->
    exists rs,
      app' = register_all rs app
      /\ List.map r_handler rs
         = List.map handler_of
             (List.filter (has_verb st) (List.map (pair Component) ms)).
Proof.
  induction ms as [|m ms IH]; intros app app' Hr.
  - inversion Hr; subst. exists []. now rewrite register_all_nil.
  - simpl in Hr.
    destruct (addRouteFromMethod st Component m path app) as [app1| |] eqn:E;
      try discriminate.
    cbn [mbind result_bind] in Hr.
    destruct (addRouteFromMethod_by_verb _ _ _ _ _ E) as (r1 & -> & H1).
    destruct (IH _ _ Hr) as (r2 & -> & H2).
    exists (r1 ++ r2)%list. split; [apply register_all_app|].
    rewrite List.map_app, H1, H2, <- List.map_app.
    change (List.map (pair Component) (m :: ms))
      with ([(Component, m)] ++ List.map (pair Component) ms)%list.
    now rewrite List.filter_app.
Qed.

Lemma components_by_verb path components :
  forall app app',
    forEach
      (fun Component app =>
         forEach
           (fun method app => addRouteFromMethod st Component method path app)
           (getMethodList ownPropertyNames Component) app)
      components app = Done app' ->
    exists rs,
      app' = register_all rs app
      /\ List.map r_handler rs
         = List.map handler_of
             (List.filter (has_verb st)
                (method_pairs ownPropertyNames components)).
Proof.
  induction components as [|C cs IH]; intros app app' Hr.
  - inversion Hr; subst. exists []. now rewrite register_all_nil.
  - simpl in Hr.
    destruct (forEach _ (getMethodList ownPropertyNames C) app)
      as [app1| |] eqn:E; try discriminate.
    cbn [mbind result_bind] in Hr.
    destruct (methods_by_verb _ _ _ _ _ E) as (r1 & -> & H1).
    destruct (IH _ _ Hr) as (r2 & -> & H2).
    exists (r1 ++ r2)%list. split; [apply register_all_app|].
    rewrite List.map_app, H1, H2, <- List.map_app.
    unfold method_pairs. simpl List.flat_map.
    now rewrite List.filter_app.
Qed.

End Exports.

(** X8.  When [addExportedComponents] returns, the handlers of the
    routes it added are, in order, those of the methods of the exported
    components for which the verb lookup is truthy, component by
    component and method by method: one route for each such method, none
    for the others or for the constructor, and a component listed twice
    is registered twice. *)
Theorem exported_handlers_are_the_mapped_methods :
  forall (ownPropertyNames : target -> list string) (st : Injector.store)
         (path : string) (components : list target)
         (app app' : Application),
    addExportedComponents ownPropertyNames st path (VClasses components) app
    = Done app' ->
    exists added,
      routes app' = (routes app ++ added)%list
      /\ List.map r_handler added
         = List.map handler_of
             (List.filter (has_verb st)
                (method_pairs ownPropertyNames components))
      /\ Forall (fun cm => snd cm <> "constructor")
           (method_pairs ownPropertyNames components).
Proof.
  intros names st path components app app' Hr.
  unfold addExportedComponents in Hr. simpl typed in Hr.
  cbn [mbind result_bind] in Hr.
  destruct (components_by_verb names st path components app app' Hr)
    as (added & -> & H).
  exists added. split; [reflexivity|]. split; [exact H|].
  apply List.Forall_forall. intros [C m] Hin.
  unfold method_pairs in Hin. apply List.in_flat_map in Hin.
  destruct Hin as (C' & _ & Hin). apply List.in_map_iff in Hin.
  destruct Hin as (m' & Heq & Hm). inversion Heq; subst.
  unfold getMethodList in Hm. apply List.filter_In in Hm.
  destruct Hm as [_ Hm]. simpl. intros ->. discriminate.
Qed.

Lemma exported_handlers_are_the_mapped_methods_witness :
  exists added,
    routes
      (register_all
         [Examples.route_of "get" "/v1" "First" "serve";
          Examples.route_of "get" "/v1" "First" "serve"]
         express)
    = (routes express ++ added)%list
    /\ List.map r_handler added
       = List.map handler_of
           (List.filter (has_verb Examples.shadow_store)
              (method_pairs Examples.names ["First"; "Widget"; "First"]))
    /\ Forall (fun cm => snd cm <> "constructor")
         (method_pairs Examples.names ["First"; "Widget"; "First"]).
Proof.
  apply (exported_handlers_are_the_mapped_methods Examples.names
           Examples.shadow_store "v1" ["First"; "Widget"; "First"] express).
  reflexivity.
Defined.

(** ** The inherited prefix only changes paths *)

Section Mounting.

Variable ownPropertyNames : target -> list string.
Variable st : Injector.store.

Lemma same_endpoints_bind (f f' g g' : Application -> result Application) :
  same_endpoints f f' -> same_endpoints g g' ->
  same_endpoints (fun app => app1 ← f app; g app1)
    (fun app => app1 ← f' app; g' app1).
Proof.
  intros [(r1 & r1' & Hf & Hf' & E1) | [[Hf Hf'] | [Hf Hf']]] Hg.
  - destruct Hg as [(r2 & r2' & Hg & Hg' & E2) | [[Hg Hg'] | [Hg Hg']]].
    + left. exists (r1 ++ r2)%list, (r1' ++ r2')%list. repeat split.
      * intros app. rewrite Hf. cbn [mbind result_bind].
        now rewrite Hg, register_all_app.
      * intros app. rewrite Hf'. cbn [mbind result_bind].
        now rewrite Hg', register_all_app.
      * now rewrite !List.map_app, E1, E2.
    + right; left. split; intros app; [rewrite Hf | rewrite Hf'];
        cbn [mbind result_bind]; auto.
    + right; right. split; intros app; [rewrite Hf | rewrite Hf'];
        cbn [mbind result_bind]; auto.
  - right; left. split; intros app; [rewrite Hf | rewrite Hf']; reflexivity.
  - right; right. split; intros app; [rewrite Hf | rewrite Hf']; reflexivity.
Qed.

Lemma same_endpoints_forEach {A : Type}
    (f g : A -> Application -> result Application) (l : list A) :
  (forall x, In x l -> same_endpoints (f x) (g x)) ->
  same_endpoints (forEach f l) (forEach g l).
Proof.
  induction l as [|x l IH]; intros H.
  - left. exists [], []. repeat split; intros app; simpl;
      now rewrite register_all_nil.
  - apply (same_endpoints_bind (f x) (g x) (forEach f l) (forEach g l)).
    + apply H. now left.
    + apply IH. intros y Hy. apply H. now right.
Qed.

Lemma same_endpoints_addRouteFromMethod Component method path1 path2 :
  same_endpoints (addRouteFromMethod st Component method path1)
    (addRouteFromMethod st Component method path2).
Proof.
  destruct (addRouteFromMethod_shape st Component method)
    as [H | [H | (verb & sub & _ & _ & _ & H)]].
  - right; left. split; intros app; apply H.
  - left. exists [], []. repeat split; intros app;
      now rewrite H, register_all_nil.
  - left.
    exists [ {| r_method := verb;
                r_path := "/" ++ getPath [PStr path1; sub];
                r_handler := getHandler (Injector.resolve Component) method |} ],
           [ {| r_method := verb;
                r_path := "/" ++ getPath [PStr path2; sub];
                r_handler := getHandler (Injector.resolve Component) method |} ].
    split; [|split]; [intros app; now rewrite H .. | reflexivity].
Qed.

Lemma same_endpoints_addExportedComponents path1 path2 includes :
  same_endpoints (addExportedComponents ownPropertyNames st path1 includes)
    (addExportedComponents ownPropertyNames st path2 includes).
Proof.
  unfold addExportedComponents.
  destruct (as_array includes) as [components|]; simpl typed.
  - apply (same_endpoints_forEach
             (fun Component app =>
                forEach
                  (fun method app =>
                     addRouteFromMethod st Component method path1 app)
                  (getMethodList ownPropertyNames Component) app)
             (fun Component app =>
                forEach
                  (fun method app =>
                     addRouteFromMethod st Component method path2 app)
                  (getMethodList ownPropertyNames Component) app)).
    intros Component _.
    apply (same_endpoints_forEach
             (fun method app =>
                addRouteFromMethod st Component method path1 app)
             (fun method app =>
                addRouteFromMethod st Component method path2 app)).
    intros method _. apply same_endpoints_addRouteFromMethod.
  - right; left. split; reflexivity.
Qed.

Lemma same_endpoints_unpack fuel :
  forall Parent path1 path2,
    same_endpoints (unpack ownPropertyNames st fuel Parent path1)
      (unpack ownPropertyNames st fuel Parent path2).
Proof.
  induction fuel as [|fuel IH]; intros Parent path1 path2.
  - right; right. split; reflexivity.
  - cbn [unpack].
    destruct (as_part _) as [own|]; simpl typed;
      [|right; left; split; reflexivity].
    cbn [mbind result_bind].
    apply (same_endpoints_bind
             (addExportedComponents ownPropertyNames st
                (getPath [PStr path1; own])
                (Injector.get st Parent "exports" (Some (VClasses [])) None))
             (addExportedComponents ownPropertyNames st
                (getPath [PStr path2; own])
                (Injector.get st Parent "exports" (Some (VClasses [])) None))).
    + apply same_endpoints_addExportedComponents.
    + destruct (as_array _) as [children|]; simpl typed;
        [|right; left; split; reflexivity].
      apply (same_endpoints_forEach
               (fun Child app =>
                  unpack ownPropertyNames st fuel Child
                    (getPath [PStr path1; own]) app)
               (fun Child app =>
                  unpack ownPropertyNames st fuel Child
                    (getPath [PStr path2; own]) app)).
      intros Child _. apply IH.
Qed.

End Mounting.

(** X10.  The inherited prefix changes nothing but the paths: a walk of
    a module returns under one prefix exactly when it returns under
    another, and then both register the same verbs with the same
    handlers in the same order. *)
Theorem unpack_prefix_only_changes_paths :
  forall (ownPropertyNames : target -> list string) (st : Injector.store)
         (fuel : nat) (Parent path1 path2 : string)
         (app1 app2 app1' : Application),
    unpack ownPropertyNames st fuel Parent path1 app1 = Done app1' ->
    exists added1 added2,
      routes app1' = (routes app1 ++ added1)%list
      /\ unpack ownPropertyNames st fuel Parent path2 app2
         = Done (register_all added2 app2)
      /\ List.map endpoint added1 = List.map endpoint added2.
Proof.
  intros names st fuel Parent path1 path2 app1 app2 app1' Hr.
  destruct (same_endpoints_unpack names st fuel Parent path1 path2)
    as [(r1 & r2 & H1 & H2 & E) | [[H1 _] | [H1 _]]];
    rewrite H1 in Hr; try discriminate.
  inversion Hr; subst. exists r1, r2. repeat split; auto.
Qed.

Lemma unpack_prefix_only_changes_paths_witness :
  exists added1 added2,
    routes
      (register_all
         [Examples.route_of "get" "/x" "First" "serve";
          Examples.route_of "get" "/x" "Second" "serve"]
         express)
    = (routes express ++ added1)%list
    /\ unpack Examples.names Examples.shadow_store 2 "RootModule" "api"
         express
       = Done (register_all added2 express)
    /\ List.map endpoint added1 = List.map endpoint added2.
Proof.
  apply (unpack_prefix_only_changes_paths Examples.names
           Examples.shadow_store 2 "RootModule" "" "api" express express).
  reflexivity.
Defined.
